(** * go-from-python: a shallow embedding of the teaching scripts

    The repository is a set of flat Go example programs.  The first part
    of this file embeds the code the properties are about:

    - [GoInt]: Go's [int] (64 bits on the usual platforms) with its
      wrap-around, and the [%d] verb;
    - [Runtime]: a small state, panic and exit monad for the code that
      prints, changes structs through pointers and defers clean-up;
    - [SenderA], [SenderB], [Structs] (go_4_structs_interfaces.go) and
      [StructsRev] (the other revision of that script);
    - [Chan]: buffered channels;
    - [Basics]: the maps and the select example of the variables,
      collections and control-flow script;
    - [Funcs]: the functions, receivers and deferred clean-up script;
    - [Goroutines]: go_3_goroutines.go.

    The second part states and proves the properties, one module of facts
    per script. *)

From Stdlib Require Import ZArith Lia.
From stdpp Require Import base option list gmap strings pretty.

Local Open Scope Z_scope.

(** ** Go's [int] *)

Module GoInt.

(** [int] is 64 bits wide with the gc toolchain on 64-bit platforms. *)
Definition intSize : Z := 64.
Definition MaxInt : Z := 2 ^ (intSize - 1) - 1.
Definition MinInt : Z := - 2 ^ (intSize - 1).

Definition in_range (z : Z) : Prop := MinInt <= z <= MaxInt.

(** Two's complement wrap-around of an arithmetic result. *)
Definition wrap (z : Z) : Z :=
  (z + 2 ^ (intSize - 1)) mod 2 ^ intSize - 2 ^ (intSize - 1).

(** [x++] *)
Definition incr (z : Z) : Z := wrap (z + 1).

(** [strconv.Itoa], and the verb [%d] of [fmt.Printf]. *)
Definition Itoa (z : Z) : string := pretty z.

End GoInt.

(** ** The runtime: variables, addressable cells, output, panics, exit *)

Module Runtime.

(** Addresses of heap cells; [nil] is Go's nil pointer. *)
Definition loc := positive.
Inductive ptr := nil | addr (l : loc).

(** What a program does to the outside world, in order. *)
Inductive event :=
  | Stdout (s : string)        (* fmt.Print / Println / Printf *)
  | Stderr (s : string)        (* the log package *)
  | Extern (call : string).    (* a call into an external resource *)

Section Machine.
(** [W]: the struct type held by the caller's variables (copied on
    use); [V]: the struct type held by addressable cells (shared
    through pointers). *)
Context {W V : Type}.

Record machine := Machine {
  vars : gmap string W;
  heap : gmap loc V;
  trace : list event
}.

Inductive outcome (A : Type) :=
  | Done (a : A) (m : machine)      (* ran to the end *)
  | Panic (m : machine)             (* run-time panic *)
  | Exit (code : Z) (m : machine).  (* os.Exit: the process is gone *)
Global Arguments Done {A} a m.
Global Arguments Panic {A} m.
Global Arguments Exit {A} code m.

Definition go (A : Type) : Type := machine -> outcome A.

Definition ret {A} (a : A) : go A := fun m => Done a m.

Definition bind {A B} (c : go A) (k : A -> go B) : go B :=
  fun m =>
    match c m with
    | Done a m' => k a m'
    | Panic m' => Panic m'
    | Exit code m' => Exit code m'
    end.

Definition emit (e : event) : go unit :=
  fun m => Done tt (Machine (vars m) (heap m) (trace m ++ [e])).

(** Reading and assigning a variable of the caller. *)
Definition getvar (x : string) : go W :=
  fun m => match vars m !! x with
           | Some w => Done w m
           | None => Panic m
           end.

Definition setvar (x : string) (w : W) : go unit :=
  fun m => Done tt (Machine (<[x := w]> (vars m)) (heap m) (trace m)).

(** Dereferencing a pointer: nil panics. *)
Definition load (p : ptr) : go V :=
  fun m => match p with
           | nil => Panic m
           | addr l => match heap m !! l with
                       | Some v => Done v m
                       | None => Panic m
                       end
           end.

Definition store (p : ptr) (v : V) : go unit :=
  fun m => match p with
           | nil => Panic m
           | addr l => match heap m !! l with
                       | Some _ =>
                           Done tt (Machine (vars m) (<[l := v]> (heap m)) (trace m))
                       | None => Panic m
                       end
           end.

(** A variable whose address is taken lives in a fresh cell. *)
Definition alloc (v : V) : go ptr :=
  fun m => let l := fresh (dom (heap m)) in
           Done (addr l) (Machine (vars m) (<[l := v]> (heap m)) (trace m)).

(** [os.Exit(code)]: nothing runs afterwards, deferred calls included. *)
Definition os_Exit (code : Z) : go unit := fun m => Exit code m.

(** [defer d; rest]: [d] runs when the rest of the function body has
    returned or panicked, and not when the process has exited. *)
Definition defer {A} (d : go unit) (rest : go A) : go A :=
  fun m =>
    match rest m with
    | Done a m' =>
        match d m' with
        | Done _ m'' => Done a m''
        | Panic m'' => Panic m''
        | Exit code m'' => Exit code m''
        end
    | Panic m' =>
        match d m' with
        | Done _ m'' => Panic m''
        | Panic m'' => Panic m''
        | Exit code m'' => Exit code m''
        end
    | Exit code m' => Exit code m'
    end.

Definition final {A} (o : outcome A) : machine :=
  match o with Done _ m | Panic m | Exit _ m => m end.

End Machine.

Global Arguments machine : clear implicits.
Global Arguments go : clear implicits.
Global Arguments outcome : clear implicits.

(** [call msg1; call msg2; ...] *)
Definition call_each {W V A} (call : A -> go W V unit) (args : list A) : go W V unit :=
  foldr (fun a rest => bind (call a) (fun _ => rest)) (ret tt) args.

Declare Scope go_scope.
Delimit Scope go_scope with go.
Notation "x <- c ;; k" := (bind c (fun x => k))
  (at level 100, c at next level, right associativity) : go_scope.
Notation "c ;;; k" := (bind c (fun _ => k))
  (at level 100, right associativity) : go_scope.

(** The [fmt] and [log] calls the scripts use. *)
Definition newline : string := String (Ascii.ascii_of_nat 10) "".

Definition fmt_Print {W V} (s : string) : go W V unit := emit (Stdout s).
Definition fmt_Println {W V} (s : string) : go W V unit :=
  emit (Stdout (s +:+ newline)).

(** [log.Fatal]: print to standard error, then [os.Exit(1)].  The date
    and time prefix of the log line is left out. *)
Definition log_Fatal {W V} (s : string) : go W V unit :=
  (emit (Stderr (s +:+ newline)) ;;; os_Exit 1)%go.

(** What was written to standard output. *)
Definition stdout_of (t : list event) : list string :=
  omap (fun e => match e with Stdout s => Some s | _ => None end) t.

Definition extern_of (t : list event) : list string :=
  omap (fun e => match e with Extern c => Some c | _ => None end) t.

End Runtime.

(** ** Structs, methods and interfaces

    The struct declarations are the same in both revisions of the script. *)

Module SenderA.
Record t := Build { FirstName : string; MessageCount : Z }.
End SenderA.

Module SenderB.
Record t := Build { FirstName : string; MessageCount : Z }.
End SenderB.

(** The interface of the script: anything with a [Send] method.  A
    [SenderA] value satisfies it with its value receiver, a pointer to a
    [SenderB] with its pointer receiver. *)
Class SenderInterface (T : Type) :=
  Send : T -> string -> Runtime.go SenderA.t SenderB.t unit.

(** [fmt.Printf("Send %d from %s: %s\n", count, name, message)] *)
Definition Send_line (count : Z) (name message : string) : string :=
  "Send " +:+ GoInt.Itoa count +:+ " from " +:+ name +:+ ": " +:+ message
  +:+ Runtime.newline.

(** The package-level variables [senderA] and [senderB]; the address of
    [senderB] is taken, so it lives in a cell. *)
Definition senderB_loc : Runtime.loc := 1%positive.

Definition globals : Runtime.machine SenderA.t SenderB.t :=
  Runtime.Machine
    {[ "senderA" := SenderA.Build "A" 0 ]}
    {[ senderB_loc := SenderB.Build "B" 0 ]}
    [].

(** *** go_4_structs_interfaces.go *)

Module Structs.
Import Runtime.

(** [func (s SenderA) Send(message string)]: the receiver [s] is a local
    copy.  [SenderA_Send_locals] runs the body and returns the copy as it
    stands when the body ends; the method itself returns nothing. *)
Definition SenderA_Send_locals (s : SenderA.t) (message : string)
  : go SenderA.t SenderB.t SenderA.t :=
  (let s := SenderA.Build (SenderA.FirstName s)
                          (GoInt.incr (SenderA.MessageCount s)) in
   fmt_Print (Send_line (SenderA.MessageCount s) (SenderA.FirstName s) message) ;;;
   ret s)%go.

Definition SenderA_Send (s : SenderA.t) (message : string)
  : go SenderA.t SenderB.t unit :=
  (SenderA_Send_locals s message ;;; ret tt)%go.

(** [func (s *SenderB) Send(message string)] *)
Definition SenderB_Send (s : ptr) (message : string)
  : go SenderA.t SenderB.t unit :=
  (b <- load s ;;
   store s (SenderB.Build (SenderB.FirstName b)
                          (GoInt.incr (SenderB.MessageCount b))) ;;;
   b <- load s ;;
   fmt_Print (Send_line (SenderB.MessageCount b) (SenderB.FirstName b) message))%go.

#[export] Instance SenderA_is_sender : SenderInterface SenderA.t := SenderA_Send.
#[export] Instance SenderB_is_sender : SenderInterface ptr := SenderB_Send.

(** [x.Send(message)] for a variable [x] of type [SenderA]. *)
Definition call_SenderA_Send (x : string) (message : string)
  : go SenderA.t SenderB.t unit :=
  (s <- getvar x ;; SenderA_Send s message)%go.

Definition runSenders : go SenderA.t SenderB.t unit :=
  (call_SenderA_Send "senderA" "message one" ;;;
   call_SenderA_Send "senderA" "message two" ;;;
   call_SenderA_Send "senderA" "message three" ;;;
   SenderB_Send (addr senderB_loc) "message one" ;;;
   SenderB_Send (addr senderB_loc) "message two" ;;;
   SenderB_Send (addr senderB_loc) "message three")%go.

Definition SendEmail {T} `{SenderInterface T} (sender : T) (message : string)
  : go SenderA.t SenderB.t unit :=
  Send sender message.

Definition runSendersInterface : go SenderA.t SenderB.t unit :=
  (senderA <- getvar "senderA" ;;
   SendEmail senderA "message four" ;;;
   SendEmail (addr senderB_loc) "message four")%go.

Definition main : go SenderA.t SenderB.t unit :=
  (runSenders ;;; runSendersInterface)%go.

End Structs.

(** *** The other revision of the structs and interfaces script *)

Module StructsRev.
Import Runtime.

(** [func (s SenderA) Send(message string)]: this revision prints no
    count, and assigns the receiver's [FirstName] after printing. *)
Definition SenderA_Send_locals (s : SenderA.t) (message : string)
  : go SenderA.t SenderB.t SenderA.t :=
  (let s := SenderA.Build (SenderA.FirstName s)
                          (GoInt.incr (SenderA.MessageCount s)) in
   fmt_Print ("Send from " +:+ SenderA.FirstName s +:+ ": " +:+ message
              +:+ newline) ;;;
   let s := SenderA.Build "what will happen????" (SenderA.MessageCount s) in
   ret s)%go.

Definition SenderA_Send (s : SenderA.t) (message : string)
  : go SenderA.t SenderB.t unit :=
  (SenderA_Send_locals s message ;;; ret tt)%go.

(** [func (s *SenderB) Send(message string)] *)
Definition SenderB_Send (s : ptr) (message : string)
  : go SenderA.t SenderB.t unit :=
  (b <- load s ;;
   store s (SenderB.Build (SenderB.FirstName b)
                          (GoInt.incr (SenderB.MessageCount b))) ;;;
   b <- load s ;;
   fmt_Print (Send_line (SenderB.MessageCount b) (SenderB.FirstName b) message))%go.

#[export] Instance SenderA_is_sender : SenderInterface SenderA.t := SenderA_Send.
#[export] Instance SenderB_is_sender : SenderInterface ptr := SenderB_Send.

Definition call_SenderA_Send (x : string) (message : string)
  : go SenderA.t SenderB.t unit :=
  (s <- getvar x ;; SenderA_Send s message)%go.

Definition runSenders : go SenderA.t SenderB.t unit :=
  (call_SenderA_Send "senderA" "message one" ;;;
   call_SenderA_Send "senderA" "message two" ;;;
   call_SenderA_Send "senderA" "message three" ;;;
   SenderB_Send (addr senderB_loc) "message one" ;;;
   SenderB_Send (addr senderB_loc) "message two" ;;;
   SenderB_Send (addr senderB_loc) "message three")%go.

Definition SendEmail {T} `{SenderInterface T} (sender : T) (message : string)
  : go SenderA.t SenderB.t unit :=
  Send sender message.

Definition runSendersInterface : go SenderA.t SenderB.t unit :=
  (senderA <- getvar "senderA" ;;
   SendEmail senderA "message four" ;;;
   SendEmail (addr senderB_loc) "message four")%go.

Definition main : go SenderA.t SenderB.t unit :=
  (runSenders ;;; runSendersInterface)%go.

End StructsRev.

(** ** Buffered channels *)

Module Chan.

(** Every channel of the scripts is made with a buffer. *)
Record t (A : Type) := Make { capacity : nat; buffer : list A }.
Global Arguments Make {A} capacity buffer.
Global Arguments capacity {A} _.
Global Arguments buffer {A} _.

(** [make(chan A, n)] *)
Definition make (A : Type) (n : nat) : t A := Make n [].

Definition full {A} (c : t A) : bool := (capacity c <=? length (buffer c))%nat.

(** The send case of a [select] that has a [default]: the value goes to
    the back of the queue when there is room; otherwise the case is not
    ready and [None] tells the caller to take [default]. *)
Definition try_send {A} (c : t A) (v : A) : option (t A) :=
  if full c then None else Some (Make (capacity c) (buffer c ++ [v])).

(** A receive that is ready takes the value at the front of the queue. *)
Definition try_recv {A} (c : t A) : option (A * t A) :=
  match buffer c with
  | [] => None
  | v :: rest => Some (v, Make (capacity c) rest)
  end.

End Chan.

(** ** The variables, collections and control-flow script *)

Module Basics.

(** The zero value of a type: what [var x T] holds, and what indexing a
    map gives for a key it does not have. *)
Class Zero (V : Type) := zero : V.
#[export] Instance int_zero : Zero Z := 0.
#[export] Instance string_zero : Zero string := "".

Record User := { Name : string; Password : string }.
#[export] Instance User_zero : Zero User := {| Name := ""; Password := "" |}.

#[export] Instance User_eq_dec : EqDecision User.
Proof. solve_decision. Defined.

(** [fmt.Println] of a [User]: the fields in braces. *)
Definition User_line (u : User) : string :=
  "{" +:+ Name u +:+ " " +:+ Password u +:+ "}" +:+ Runtime.newline.

Section Maps.
Context {K : Type} `{EqDecision K} {V : Type} `{Zero V}.

(** Modelled from the spec: the keys of a value of Go's built-in map type,
    which the Go runtime implements and [src/] does not hold.  A map is
    modelled by the list of its entries, one per key.  Keys are compared
    with [==], taken to decide equality, as it does for every key type
    without floating-point parts. *)
Definition keys (m : list (K * V)) : list K := m.*1.

(** Modelled from the spec: the two-result map index of the Go runtime,
    absent from [src/].  The spec has it that a lookup miss is ignored and
    gives the default zero value; a hit gives the value of the entry. *)
Fixpoint mapaccess2 (m : list (K * V)) (k : K) : V * bool :=
  match m with
  | [] => (zero, false)
  | (k', v) :: m => if decide (k' = k) then (v, true) else mapaccess2 m k
  end.

(** Modelled from the spec: the statement [v, ok := m[k]] on the
    runtime's map, absent from [src/]: the value, the key-exists flag and
    the map as the statement leaves it. *)
Definition map_index (m : list (K * V)) (k : K) : V * bool * list (K * V) :=
  (mapaccess2 m k, m).

(** Modelled from the spec: the statement [m[k] = v] on the runtime's
    map, absent from [src/]: the entry of [k] gets the value, and a new
    entry is made when there is none. *)
Fixpoint map_assign (m : list (K * V)) (k : K) (v : V) : list (K * V) :=
  match m with
  | [] => [(k, v)]
  | (k', v') :: m =>
      if decide (k' = k) then (k, v) :: m else (k', v') :: map_assign m k v
  end.

(** Modelled from the spec: [delete(m, k)] on the runtime's map, absent
    from [src/]: the entry of [k] goes, if there is one. *)
Fixpoint map_delete (m : list (K * V)) (k : K) : list (K * V) :=
  match m with
  | [] => []
  | (k', v) :: m =>
      if decide (k' = k) then map_delete m k else (k', v) :: map_delete m k
  end.

End Maps.

(** [fmt.Printf("key[%s] value[%d]\n", k, v)] *)
Definition range_line (k : string) (v : Z) : string :=
  "key[" +:+ k +:+ "] value[" +:+ GoInt.Itoa v +:+ "]" +:+ Runtime.newline.

(** [for k, v := range nameToAge { delete(nameToAge, k); fmt.Printf(...) }].
    Modelled from the spec: the [range] over the runtime's map, absent
    from [src/].  The runtime picks the order: [order] is the keys in the
    order their turn comes.  The loop ranges over the map itself: a key is
    visited, with the value it then has, only if it is still in the map
    when its turn comes. *)
Fixpoint range_delete (order : list string) (out : list string)
    (nameToAge : list (string * Z)) : list string * list (string * Z) :=
  match order with
  | [] => (out, nameToAge)
  | k :: order =>
      match mapaccess2 nameToAge k with
      | (v, true) =>
          range_delete order (out ++ [range_line k v]) (map_delete nameToAge k)
      | (_, false) => range_delete order out nameToAge
      end
  end.

(** The section of [main] on maps.  It returns what is printed and the
    map [nameToAge] at the end.  One key is left when the range loop
    starts, so there is one order to visit it in. *)
Definition maps_section : list string * list (string * Z) :=
  let nameToAge : list (string * Z) :=
    map_assign (map_assign [] "Bob" 42) "Alice" 33 in
  let '(bobAge, keyExists, nameToAge) := map_index nameToAge "Bob" in
  let out :=
    if keyExists then [GoInt.Itoa bobAge +:+ Runtime.newline]
    else [GoInt.Itoa bobAge +:+ Runtime.newline] in
  let nameToAge := map_assign nameToAge "Bob" 34 in
  let nameToAge := map_delete nameToAge "Bob" in
  let dorisUser := {| Name := "Doris"; Password := "Gopher123" |} in
  let evanUser := {| Name := "Evan"; Password := "Gopher456" |} in
  let buddyMap : list (User * User) :=
    map_assign (map_assign [] dorisUser evanUser) evanUser dorisUser in
  let '(dorisBuddyUser, keyExists, buddyMap) := map_index buddyMap dorisUser in
  let out := if keyExists then out ++ [User_line dorisBuddyUser] else out in
  range_delete (keys nameToAge) out nameToAge.

(** The sending goroutine of the select example, cut after [n] rounds of
    its endless loop; between rounds the reading goroutine takes
    [sched !!! i] messages off [messageChannel] and prints them. *)
Definition reader_step (st : Chan.t string * list string)
  : Chan.t string * list string :=
  match Chan.try_recv st.1 with
  | Some (message, c) => (c, st.2 ++ [message +:+ Runtime.newline])
  | None => st
  end.

Definition sender_step (st : Chan.t string * list string)
  : Chan.t string * list string :=
  match Chan.try_send st.1 "foo" with
  | Some c => (c, st.2 ++ ["sent a message" +:+ Runtime.newline])
  | None => (st.1, st.2 ++ ["channel is full!" +:+ Runtime.newline])
  end.

Fixpoint sender_loop (sched : list nat) (st : Chan.t string * list string)
  : Chan.t string * list string :=
  match sched with
  | [] => st
  | reads :: sched => sender_loop sched (sender_step (Nat.iter reads reader_step st))
  end.

Definition messageChannel : Chan.t string := Chan.make string 1024.

End Basics.

(** ** The functions, receivers and deferred clean-up script *)

Module user.
Record t := Build { firstName : string }.
End user.

Module person.
Record t := Build { firstName : string }.
End person.

Module Funcs.
Import Runtime.

(** [func (u user) updateNameAndCopy(newName string) user]: [u] is the
    method's own copy of the receiver. *)
Definition updateNameAndCopy (u : user.t) (newName : string) : user.t :=
  let u := user.Build newName in
  u.

(** [x.updateNameAndCopy(newName)] for a variable [x] of type [user]. *)
Definition call_updateNameAndCopy (x : string) (newName : string)
  : go user.t person.t user.t :=
  (u <- getvar x ;; ret (updateNameAndCopy u newName))%go.

(** [func (p *person) updateMyName(newName string)] *)
Definition updateMyName (p : ptr) (newName : string) : go user.t person.t unit :=
  (_ <- load p ;; store p (person.Build newName))%go.

Definition deferred_line : string :=
  "I print after main returns and before whatever called main continues.".

(** The numbered sections 1 to 6 of [main]. *)
Definition main_sections : go user.t person.t unit :=
  (let whizzBang := "whizzbang!" in
   (* foo("bang"): prints the captured variable, the result is dropped *)
   fmt_Println whizzBang ;;;
   let whizzBang := whizzBang +:+ " more stuff " in
   fmt_Println whizzBang ;;;
   setvar "firstUser" (user.Build "") ;;;
   firstUser <- call_updateNameAndCopy "firstUser" "alice" ;;
   setvar "firstUser" firstUser ;;;
   firstUser <- getvar "firstUser" ;;
   fmt_Println (user.firstName firstUser) ;;;
   firstPerson <- alloc (person.Build "") ;;
   updateMyName firstPerson "jordan" ;;;
   p <- load firstPerson ;;
   fmt_Println (person.firstName p))%go.

(** What the two calls into [database/sql] return is not the script's to
    decide; [true] stands for a nil error. *)
Definition main (sql_Open_ok db_Conn_ok : bool) : go user.t person.t unit :=
  defer (fmt_Println deferred_line)
 (defer (fmt_Println deferred_line)
   (emit (Extern "sql.Open") ;;;
    (if sql_Open_ok then ret tt
     else log_Fatal
       "Killing program, check the host/port/user string for syntax errors.") ;;;
    emit (Extern "db.Conn") ;;;
    (if db_Conn_ok then ret tt
     else log_Fatal "Killing program, couldn't reach the db for a connection.") ;;;
    defer (emit (Extern "conn.Close")) main_sections)%go).

Definition start : machine user.t person.t := Machine ∅ ∅ [].

End Funcs.

(** ** go_3_goroutines.go *)

Module Goroutines.

(** *** The message loop of [main] *)

Definition messageChan : Chan.t string := Chan.make string 3.

Definition messages : list string :=
  ["foo"; "bar"; "bazz"; "wham"; "whack"; "bang"; "pop"; "zow"].

(** The state the loop and the printing goroutine share: the channel and
    standard output; with it, the message the printing goroutine has
    received and not yet printed. *)
Record shared := Shared {
  chan : Chan.t string;
  holding : option string;
  stdout : list string
}.

(** One step of the printing goroutine: it prints the message it holds;
    holding none, it receives one when there is one, and waits otherwise. *)
Definition printer_step (st : shared) : shared :=
  match holding st with
  | Some message =>
      Shared (chan st) None (stdout st ++ [message +:+ Runtime.newline])
  | None =>
      match Chan.try_recv (chan st) with
      | Some (message, c) => Shared c (Some message) (stdout st)
      | None => st
      end
  end.

Inductive branch := sent | dropped.

Definition drop_notice (message : string) : string :=
  "messageChan full, dropping message: " +:+ message +:+ Runtime.newline.

(** The [select] itself: [case messageChan <- message] when the channel
    has room, [default] otherwise. *)
Definition select_send (message : string) (st : shared) : branch * shared :=
  match Chan.try_send (chan st) message with
  | Some c => (sent, Shared c (holding st) (stdout st))
  | None => (dropped, st)
  end.

(** The body of the branch taken: nothing after a send, the
    [fmt.Println] of the notice in [default]. *)
Definition branch_body (b : branch) (message : string) (st : shared) : shared :=
  match b with
  | sent => st
  | dropped => Shared (chan st) (holding st) (stdout st ++ [drop_notice message])
  end.

(** What happened in one round of the loop: the message, the state just
    before the [select], the branch taken, the state just after the
    [select], and the state at the end of the round. *)
Record round := Round {
  message : string;
  before : shared;
  taken : branch;
  selected : shared;
  after : shared
}.

(** The steps the printing goroutine makes in round [i]: before the
    [select], and between the [select] and the end of the branch taken
    (none once [sched] runs out). *)
Definition steps_before (sched : list (nat * nat)) (i : nat) : nat :=
  (nth i sched (0%nat, 0%nat)).1.
Definition steps_within (sched : list (nat * nat)) (i : nat) : nat :=
  (nth i sched (0%nat, 0%nat)).2.

(** [for _, message := range messages { select ... }], with the printing
    goroutine running concurrently as [sched] says. *)
Fixpoint send_loop (messages : list string) (sched : list (nat * nat)) (st : shared)
  : list round * shared :=
  match messages with
  | [] => ([], st)
  | message :: messages =>
      let st0 := Nat.iter (steps_before sched 0) printer_step st in
      let '(b, st1) := select_send message st0 in
      let st2 :=
        branch_body b message (Nat.iter (steps_within sched 0) printer_step st1) in
      let '(rounds, st') := send_loop messages (tl sched) st2 in
      (Round message st0 b st1 st2 :: rounds, st')
  end.

(** *** The stock pipeline *)

Definition workers : Z := 4.
Definition maxEmojis : Z := 100000.

(** The ticker symbol and icon of the four workers [main] starts. *)
Definition worker_args : list (string * string) :=
  [("AAPL", "ðŸŽ"); ("GOOG", "ðŸ¤“"); ("FB", "ðŸ¤¢"); ("AMZN", "ðŸ“¦")].

(** [rand.Intn(n)]: a number in [0, n) for a positive [n], and a panic
    otherwise.  [raw] is what the generator draws. *)
Definition rand_Intn (raw : Z) (n : Z) : option Z :=
  if n <=? 0 then None else Some (raw mod n).

Definition stockSymbols : list string := ["AAPL"; "GOOG"; "FB"; "AMZN"].

(** [stockSymbolSpammer], one round of its endless loop per element of
    [raws]; the result is what it has put in [stockChan], in order, or
    [None] if indexing the slice panicked. *)
Fixpoint stockSymbolSpammer (raws : list Z) : option (list string) :=
  match raws with
  | [] => Some []
  | raw :: raws =>
      i ← rand_Intn raw (Z.of_nat (length stockSymbols));
      randomStock ← stockSymbols !! Z.to_nat i;
      rest ← stockSymbolSpammer raws;
      Some (randomStock :: rest)
  end.

(** What a worker has done when it can go no further. *)
Record worker_end := WorkerEnd {
  emojiCount : Z;            (* the local tally *)
  printed : list string;     (* the icons printed *)
  unread : list string;      (* symbols it left in the channel *)
  done_sent : list bool;     (* what it put in [doneChan] *)
  finished : bool            (* returned, or still waiting in [range] *)
}.

(** [stockEmojiWorker] reading the symbols [stockChan] hands to it;
    [closed] tells whether the channel is closed once they are consumed
    (the [range] then ends) or merely empty (the worker then waits). *)
Fixpoint range_stockChan (ticker icon : string) (maxEmojis : Z) (closed : bool)
    (emojiCount : Z) (printed : list string) (stockChan : list string)
  : worker_end :=
  match stockChan with
  | [] =>
      if closed then WorkerEnd emojiCount printed [] [true] true
      else WorkerEnd emojiCount printed [] [] false
  | stockSymbol :: stockChan =>
      let '(emojiCount, printed) :=
        if String.eqb stockSymbol ticker
        then (GoInt.incr emojiCount, printed ++ [icon])
        else (emojiCount, printed) in
      if maxEmojis <? emojiCount
      then WorkerEnd emojiCount printed stockChan [true] true
      else range_stockChan ticker icon maxEmojis closed emojiCount printed stockChan
  end.

Definition stockEmojiWorker (stockChan : list string) (closed : bool)
    (ticker icon : string) (maxEmojis : Z) : worker_end :=
  range_stockChan ticker icon maxEmojis closed 0 [] stockChan.

(** *** The waiting loop of [main] *)

(** The case a [select] of the loop takes. *)
Inductive event := tickerChan | workerDoneChan.

#[export] Instance event_eq_dec : EqDecision event.
Proof. solve_decision. Defined.

Inductive wait :=
| Waiting (finishedWorkers : Z)                      (* blocked in [select] *)
| Returned (exitMessage : string) (after : list event).

Definition timeout_message : string :=
  Runtime.newline +:+ Runtime.newline +:+ "got a timeout message".
Definition all_done_message : string :=
  Runtime.newline +:+ Runtime.newline +:+ "heard from all the workers".

(** [for { select { case <-tickerChan: ... case <-workerDoneChan: ... } }]
    over the cases that become ready, in the order [select] takes them. *)
Fixpoint main_wait (finishedWorkers : Z) (events : list event) : wait :=
  match events with
  | [] => Waiting finishedWorkers
  | tickerChan :: events => Returned timeout_message events
  | workerDoneChan :: events =>
      let finishedWorkers := GoInt.incr finishedWorkers in
      if finishedWorkers =? workers
      then Returned all_done_message events
      else main_wait finishedWorkers events
  end.

(** Counting, for the statements below: the completion messages among
    some events, and the symbols of a stream that match a ticker. *)
Fixpoint done_count (events : list event) : Z :=
  match events with
  | [] => 0
  | workerDoneChan :: events => 1 + done_count events
  | tickerChan :: events => done_count events
  end.

Fixpoint matching (ticker : string) (stockChan : list string) : Z :=
  match stockChan with
  | [] => 0
  | stockSymbol :: stockChan =>
      (if String.eqb stockSymbol ticker then 1 else 0) + matching ticker stockChan
  end.

End Goroutines.

(** ** More of the scripts *)

(** *** The end of [main] in go_3_goroutines.go *)

Module GoroutinesExit.
Import Runtime.

(** [main] from the ticker on, once the waiting loop has returned with
    [exitMessage]: the two deferred calls around the assignment the loop
    makes before [return].  The argument of the deferred [fmt.Println] is
    read when the [defer] statement runs.  The only variable is the string
    [exitMessage]; there are no cells. *)
Definition main_returning (exitMessage : string) : go string Empty_set unit :=
  defer (emit (Extern "ticker.Stop"))
    (setvar "exitMessage" "" ;;;
     argument <- getvar "exitMessage" ;;
     defer (fmt_Println argument)
           (setvar "exitMessage" exitMessage))%go.

(** [main] on the cases its [select] takes: [None] while the loop waits. *)
Definition main_exit (events : list Goroutines.event)
    (m : machine string Empty_set) : option (outcome string Empty_set unit) :=
  match Goroutines.main_wait 0 events with
  | Goroutines.Waiting _ => None
  | Goroutines.Returned exitMessage _ => Some (main_returning exitMessage m)
  end.

End GoroutinesExit.

(** *** Reading the rounds of the message loop *)

Module GoroutinesRounds.
Import Goroutines.





End GoroutinesRounds.

(** *** Waiting for a goroutine through a channel *)

Module Handoff.

(** The goroutine: it prints, then sends [true], then is done. *)
Inductive sender_at := at_print | at_send | sender_done.

(** [main]: it receives, prints if the value is [true], and goes on. *)
Inductive main_at := at_receive | gone_on.

(** [stdout] is what these two print; the goroutines started earlier
    print among it at times of their own. *)

Record state := State {
  boolChannel : Chan.t bool;
  sender : sender_at;
  receiver : main_at;
  stdout : list string
}.

Definition concurrent_line : string :=
  "I'm concurrent, and someone will wait on me :D" +:+ Runtime.newline.
Definition finished_line : string :=
  "Finished waiting for that goroutine" +:+ Runtime.newline.

Definition sender_step (s : state) : state :=
  match sender s with
  | at_print => State (boolChannel s) at_send (receiver s) (stdout s ++ [concurrent_line])
  | at_send =>
      match Chan.try_send (boolChannel s) true with
      | Some c => State c sender_done (receiver s) (stdout s)
      | None => s
      end
  | sender_done => s
  end.

Definition main_step (s : state) : state :=
  match receiver s with
  | at_receive =>
      match Chan.try_recv (boolChannel s) with
      | Some (result, c) =>
          State c (sender s) gone_on
                (if result then stdout s ++ [finished_line] else stdout s)
      | None => s
      end
  | gone_on => s
  end.

(** The scheduler picks the goroutine ([true]) or [main] ([false]). *)
Definition step (s : state) (pick : bool) : state :=
  if pick then sender_step s else main_step s.

Definition run (schedule : list bool) (s : state) : state := foldl step s schedule.

Definition start : state := State (Chan.make bool 1) at_print at_receive [].

End Handoff.

(** *** The stock pipeline as a whole *)

Module Pipeline.

(** Where a worker is: in its [range] loop, at [doneChan <- true], or
    back from the call. *)
Inductive wstatus := reading | signalling | returned.

#[export] Instance wstatus_eq_dec : EqDecision wstatus.
Proof. solve_decision. Defined.

Record worker := Worker {
  ticker : string;
  icon : string;
  maxEmojis : Z;
  emojiCount : Z;
  status : wstatus
}.

Inductive mstatus :=
| waiting                           (* in the [select] of the loop *)
| exited (exitMessage : string)     (* [main] has returned: the program is over *)
| crashed.                          (* a goroutine has panicked *)

Record system := System {
  stockTickerChan : Chan.t string;
  workerDoneChan : Chan.t bool;
  ws : list worker;
  (* per spammer: the symbol it has drawn and is waiting to send *)
  spammers : list (option string);
  finishedWorkers : Z;
  main_status : mstatus;
  stdout : list string     (* what the workers print *)
}.

(** What the scheduler lets happen next. *)
Inductive action :=
| spam (j : nat) (raw : Z)   (* spammer [j] goes on; [raw] is its next draw *)
| work (i : nat)             (* worker [i] goes on *)
| tick                       (* [main] takes [case <-tickerChan] *)
| collect.                   (* [main] takes [case <-workerDoneChan] *)

(** [stockSymbols[rand.Intn(len(stockSymbols))]] *)
Definition draw (raw : Z) : option string :=
  i ← Goroutines.rand_Intn raw (Z.of_nat (length Goroutines.stockSymbols));
  Goroutines.stockSymbols !! Z.to_nat i.

(** A spammer draws a symbol unless it still holds one, and sends it when
    the channel has room; otherwise it stays at the send. *)
Definition spam_step (j : nat) (raw : Z) (s : system) : system :=
  match spammers s !! j with
  | None => s
  | Some held =>
      match (match held with Some sym => Some sym | None => draw raw end) with
      | None =>
          System (stockTickerChan s) (workerDoneChan s) (ws s) (spammers s)
                 (finishedWorkers s) crashed (stdout s)
      | Some randomStock =>
          match Chan.try_send (stockTickerChan s) randomStock with
          | Some c =>
              System c (workerDoneChan s) (ws s) (<[j := None]> (spammers s))
                     (finishedWorkers s) (main_status s) (stdout s)
          | None =>
              System (stockTickerChan s) (workerDoneChan s) (ws s)
                     (<[j := Some randomStock]> (spammers s))
                     (finishedWorkers s) (main_status s) (stdout s)
          end
      end
  end.

(** A worker in its loop takes the next symbol when there is one, counts
    and prints it if it is its own, and leaves the loop once the count is
    above its cap; at the send it puts [true] in the done channel when
    there is room. *)
Definition work_step (i : nat) (s : system) : system :=
  match ws s !! i with
  | None => s
  | Some w =>
      match status w with
      | reading =>
          match Chan.try_recv (stockTickerChan s) with
          | None => s
          | Some (stockSymbol, c) =>
              let '(count, out) :=
                if String.eqb stockSymbol (ticker w)
                then (GoInt.incr (emojiCount w), [icon w])
                else (emojiCount w, []) in
              let st := if maxEmojis w <? count then signalling else reading in
              System c (workerDoneChan s)
                     (<[i := Worker (ticker w) (icon w) (maxEmojis w) count st]> (ws s))
                     (spammers s) (finishedWorkers s) (main_status s)
                     (stdout s ++ out)
          end
      | signalling =>
          match Chan.try_send (workerDoneChan s) true with
          | None => s
          | Some c =>
              System (stockTickerChan s) c
                     (<[i := Worker (ticker w) (icon w) (maxEmojis w) (emojiCount w)
                                    returned]> (ws s))
                     (spammers s) (finishedWorkers s) (main_status s) (stdout s)
          end
      | returned => s
      end
  end.

Definition tick_step (s : system) : system :=
  System (stockTickerChan s) (workerDoneChan s) (ws s) (spammers s)
         (finishedWorkers s) (exited Goroutines.timeout_message) (stdout s).

Definition collect_step (s : system) : system :=
  match Chan.try_recv (workerDoneChan s) with
  | None => s
  | Some (_, c) =>
      let finishedWorkers := GoInt.incr (finishedWorkers s) in
      System (stockTickerChan s) c (ws s) (spammers s) finishedWorkers
             (if finishedWorkers =? Goroutines.workers
              then exited Goroutines.all_done_message else waiting)
             (stdout s)
  end.

(** Nothing happens any more once [main] has returned. *)
Definition step (s : system) (a : action) : system :=
  match main_status s with
  | waiting =>
      match a with
      | spam j raw => spam_step j raw s
      | work i => work_step i s
      | tick => tick_step s
      | collect => collect_step s
      end
  | _ => s
  end.

Definition run (schedule : list action) (s : system) : system :=
  foldl step s schedule.

(** The goroutines [main] starts, every worker with the cap [cap]. *)
Definition start (cap : Z) : system :=
  System (Chan.make string 100) (Chan.make bool (Z.to_nat Goroutines.workers))
         (map (fun '(ticker, icon) => Worker ticker icon cap 0 reading)
              Goroutines.worker_args)
         [None; None] 0 waiting [].

Definition init : system := start Goroutines.maxEmojis.

(** Counting, for the statements below. *)
Definition returned_count (l : list worker) : Z :=
  Z.of_nat (length (filter (fun w => status w = returned) l)).

Definition tally (l : list worker) : Z :=
  foldr (fun w total => emojiCount w + total) 0 l.

(** What holds of a worker at any time, for a cap from 0 up to but not
    including the largest [int]: in the loop its count is within the cap,
    after the loop it is one above. *)
Definition worker_ok (w : worker) : Prop :=
  0 <= maxEmojis w < GoInt.MaxInt /\
  match status w with
  | reading => 0 <= emojiCount w <= maxEmojis w
  | signalling | returned => emojiCount w = maxEmojis w + 1
  end.

(** What holds of the pipeline at any time. *)
Record invariant (s : system) : Prop := Invariant {
  inv_stock :
    (length (Chan.buffer (stockTickerChan s)) <= Chan.capacity (stockTickerChan s))%nat;
  inv_done_capacity : Chan.capacity (workerDoneChan s) = 4%nat;
  inv_args : map (fun w => (ticker w, icon w)) (ws s) = Goroutines.worker_args;
  inv_done :
    Z.of_nat (length (Chan.buffer (workerDoneChan s))) + finishedWorkers s
    = returned_count (ws s);
  inv_finished : 0 <= finishedWorkers s;
  inv_main :
    match main_status s with
    | waiting => finishedWorkers s < Goroutines.workers
    | exited exitMessage =>
        exitMessage = Goroutines.timeout_message \/
        (exitMessage = Goroutines.all_done_message /\
         finishedWorkers s = Goroutines.workers)
    | crashed => False
    end;
  inv_workers : Forall worker_ok (ws s);
  inv_symbols :
    Forall (fun sym => sym ∈ Goroutines.stockSymbols) (Chan.buffer (stockTickerChan s));
  inv_held :
    Forall (fun held => forall sym, held = Some sym -> sym ∈ Goroutines.stockSymbols)
           (spammers s);
  inv_icons : Forall (fun line => line ∈ Goroutines.worker_args.*2) (stdout s);
  inv_stdout : Z.of_nat (length (stdout s)) = tally (ws s)
}.

End Pipeline.

(** * Properties *)

(** ** Arithmetic of [int] *)

Module GoIntFacts.
Import GoInt.

Lemma wrap_in_range z : in_range (wrap z).
Proof.
  unfold in_range, wrap, MinInt, MaxInt, intSize.
  pose proof (Z.mod_pos_bound (z + 2 ^ (64 - 1)) (2 ^ 64) ltac:(lia)). lia.
Qed.

Lemma wrap_id z : in_range z -> wrap z = z.
Proof.
  unfold in_range, wrap, MinInt, MaxInt, intSize. intros Hz.
  rewrite Z.mod_small; lia.
Qed.

Lemma incr_below_max z : MinInt <= z < MaxInt -> incr z = z + 1.
Proof. intros Hz. unfold incr. apply wrap_id. unfold in_range. lia. Qed.

Lemma incr_at_max : incr MaxInt = MinInt.
Proof. reflexivity. Qed.

Lemma MaxInt_value : MaxInt = 9223372036854775807.
Proof. reflexivity. Qed.

Lemma MinInt_value : MinInt = -9223372036854775808.
Proof. reflexivity. Qed.

End GoIntFacts.

(** ** Running the monad *)

Module RuntimeFacts.
Import Runtime.

Section Steps.
Context {W V : Type}.
Implicit Types m : machine W V.

Lemma bind_Done {A B} (c : go W V A) (k : A -> go W V B) m a m' :
  c m = Done a m' -> bind c k m = k a m'.
Proof. intros Hc. unfold bind. rewrite Hc. reflexivity. Qed.

Lemma bind_Exit {A B} (c : go W V A) (k : A -> go W V B) m code m' :
  c m = Exit code m' -> bind c k m = Exit code m'.
Proof. intros Hc. unfold bind. rewrite Hc. reflexivity. Qed.

Lemma load_addr l v m :
  heap m !! l = Some v -> load (addr l) m = Done v m.
Proof. intros Hl. unfold load. rewrite Hl. reflexivity. Qed.

Lemma store_addr l v v' m :
  heap m !! l = Some v ->
  store (addr l) v' m = Done tt (Machine (vars m) (<[l := v']> (heap m)) (trace m)).
Proof. intros Hl. unfold store. rewrite Hl. reflexivity. Qed.

Lemma getvar_Some x w m :
  vars m !! x = Some w -> getvar x m = Done w m.
Proof. intros Hx. unfold getvar. rewrite Hx. reflexivity. Qed.

Lemma defer_Exit {A} (d : go W V unit) (rest : go W V A) m code m' :
  rest m = Exit code m' -> defer d rest m = Exit code m'.
Proof. intros Hr. unfold defer. rewrite Hr. reflexivity. Qed.

End Steps.
End RuntimeFacts.

(** ** Value and pointer receivers on the senders *)

Module SenderFacts.
Import Runtime RuntimeFacts.

(** Running either revision's [SenderA.Send] on a copy only prints. *)
Lemma Structs_SenderA_Send_run s message (m : machine SenderA.t SenderB.t) :
  Structs.SenderA_Send s message m =
  Done tt (Machine (vars m) (heap m)
     (trace m ++ [Stdout (Send_line (GoInt.incr (SenderA.MessageCount s))
                                    (SenderA.FirstName s) message)])).
Proof. reflexivity. Qed.

Lemma StructsRev_SenderA_Send_run s message (m : machine SenderA.t SenderB.t) :
  StructsRev.SenderA_Send s message m =
  Done tt (Machine (vars m) (heap m)
     (trace m ++ [Stdout ("Send from " +:+ SenderA.FirstName s +:+ ": "
                          +:+ message +:+ newline)])).
Proof. reflexivity. Qed.

(** The copy itself does change: the count goes up, and the later
    revision also renames it. *)
Lemma Structs_SenderA_Send_copy s message (m : machine SenderA.t SenderB.t) :
  exists m', Structs.SenderA_Send_locals s message m =
    Done (SenderA.Build (SenderA.FirstName s) (GoInt.incr (SenderA.MessageCount s))) m'.
Proof. eexists. reflexivity. Qed.

Lemma StructsRev_SenderA_Send_copy s message (m : machine SenderA.t SenderB.t) :
  exists m', StructsRev.SenderA_Send_locals s message m =
    Done (SenderA.Build "what will happen????" (GoInt.incr (SenderA.MessageCount s))) m'.
Proof. eexists. reflexivity. Qed.

(** The pointer receiver, step by step. *)
Lemma SenderB_Send_run l b message (m : machine SenderA.t SenderB.t) :
  heap m !! l = Some b ->
  Structs.SenderB_Send (addr l) message m =
  Done tt (Machine (vars m)
     (<[l := SenderB.Build (SenderB.FirstName b) (GoInt.incr (SenderB.MessageCount b))]>
        (heap m))
     (trace m ++ [Stdout (Send_line (GoInt.incr (SenderB.MessageCount b))
                                    (SenderB.FirstName b) message)])).
Proof.
  intros Hl. unfold Structs.SenderB_Send.
  rewrite (bind_Done _ _ _ _ _ (load_addr _ _ _ Hl)).
  rewrite (bind_Done _ _ _ _ _ (store_addr _ _ _ _ Hl)).
  rewrite (bind_Done _ _ _ _ _
             (load_addr l _ _ (lookup_insert_eq (heap m) l _))).
  reflexivity.
Qed.

Lemma SenderB_Send_revisions p message (m : machine SenderA.t SenderB.t) :
  Structs.SenderB_Send p message m = StructsRev.SenderB_Send p message m.
Proof. reflexivity. Qed.

Lemma SenderB_Send_nil message (m : machine SenderA.t SenderB.t) :
  Structs.SenderB_Send nil message m = Panic m.
Proof. reflexivity. Qed.

(** A run of calls [x.Send(msg)] on a variable [x] holding [s]. *)
Lemma Structs_calls_run x s msgs (m : machine SenderA.t SenderB.t) :
  vars m !! x = Some s ->
  call_each (Structs.call_SenderA_Send x) msgs m =
  Done tt (Machine (vars m) (heap m)
     (trace m ++ map (fun msg => Stdout (Send_line (GoInt.incr (SenderA.MessageCount s))
                                                   (SenderA.FirstName s) msg)) msgs)).
Proof.
  revert m. induction msgs as [|msg msgs IH]; intros m Hx; cbn [call_each foldr map].
  - unfold ret. rewrite app_nil_r. destruct m; reflexivity.
  - unfold Structs.call_SenderA_Send at 1.
    erewrite bind_Done; last first.
    { erewrite bind_Done; [|apply getvar_Some, Hx]. apply Structs_SenderA_Send_run. }
    fold (call_each (Structs.call_SenderA_Send x) msgs).
    rewrite IH by exact Hx. cbn. rewrite <- app_assoc. reflexivity.
Qed.

Lemma StructsRev_calls_run x s msgs (m : machine SenderA.t SenderB.t) :
  vars m !! x = Some s ->
  call_each (StructsRev.call_SenderA_Send x) msgs m =
  Done tt (Machine (vars m) (heap m)
     (trace m ++ map (fun msg => Stdout ("Send from " +:+ SenderA.FirstName s +:+ ": "
                                         +:+ msg +:+ newline)) msgs)).
Proof.
  revert m. induction msgs as [|msg msgs IH]; intros m Hx; cbn [call_each foldr map].
  - unfold ret. rewrite app_nil_r. destruct m; reflexivity.
  - unfold StructsRev.call_SenderA_Send at 1.
    erewrite bind_Done; last first.
    { erewrite bind_Done; [|apply getvar_Some, Hx]. apply StructsRev_SenderA_Send_run. }
    fold (call_each (StructsRev.call_SenderA_Send x) msgs).
    rewrite IH by exact Hx. cbn. rewrite <- app_assoc. reflexivity.
Qed.

(** A run of calls through one pointer, counting from [c]. *)
Lemma SenderB_calls_run l name msgs : forall c (m : machine SenderA.t SenderB.t),
  heap m !! l = Some (SenderB.Build name c) ->
  GoInt.MinInt <= c -> c + Z.of_nat (length msgs) <= GoInt.MaxInt ->
  exists m',
    call_each (Structs.SenderB_Send (addr l)) msgs m = Done tt m' /\
    heap m' !! l = Some (SenderB.Build name (c + Z.of_nat (length msgs))) /\
    (forall l', l' <> l -> heap m' !! l' = heap m !! l') /\
    vars m' = vars m.
Proof.
  induction msgs as [|msg msgs IH]; intros c m Hl Hlo Hhi; cbn [call_each foldr].
  - exists m. rewrite Z.add_0_r. auto.
  - cbn [length] in Hhi. rewrite Nat2Z.inj_succ in Hhi.
    rewrite (bind_Done _ _ _ _ _ (SenderB_Send_run _ _ msg _ Hl)).
    fold (call_each (Structs.SenderB_Send (addr l)) msgs). cbn [SenderB.FirstName SenderB.MessageCount].
    rewrite GoIntFacts.incr_below_max by lia.
    edestruct (IH (c + 1)) as (m' & Hrun & Hcell & Hframe & Hvars);
      [ | | | exists m'; split; [exact Hrun|] ].
    + cbn. apply lookup_insert_eq.
    + lia.
    + lia.
    + cbn [length]. rewrite Nat2Z.inj_succ.
      replace (c + Z.succ (Z.of_nat (length msgs))) with (c + 1 + Z.of_nat (length msgs)) by lia.
      split; [exact Hcell|]. split; [|exact Hvars].
      intros l' Hne. rewrite Hframe by exact Hne. cbn. apply lookup_insert_ne. congruence.
Qed.

(** C8: for every [SenderA] value held by a caller's variable [x] and every
    sequence of calls [x.Send(msg)], in either revision of the script, the
    calls run to the end and leave the caller's struct as it was: [x] still
    holds the same [FirstName] and [MessageCount] (0 for a fresh sender,
    whatever the number of calls), because [Send] works on a copy.  Every
    call therefore prints the same count. *)
Theorem SenderA_Send_leaves_caller_unchanged
    (m : machine SenderA.t SenderB.t) (x : string) (s : SenderA.t) (msgs : list string) :
  vars m !! x = Some s ->
  (exists m',
     call_each (Structs.call_SenderA_Send x) msgs m = Done tt m' /\
     vars m' !! x = Some s /\ vars m' = vars m /\ heap m' = heap m /\
     stdout_of (trace m') = stdout_of (trace m) ++
       map (Send_line (GoInt.incr (SenderA.MessageCount s)) (SenderA.FirstName s)) msgs) /\
  (exists m',
     call_each (StructsRev.call_SenderA_Send x) msgs m = Done tt m' /\
     vars m' !! x = Some s /\ vars m' = vars m /\ heap m' = heap m).
Proof.
  intros Hx. split.
  - eexists. split; [apply Structs_calls_run, Hx|]. cbn.
    repeat split; try assumption.
    unfold stdout_of. rewrite omap_app. f_equal.
    induction msgs as [|msg msgs IH]; [reflexivity|]. cbn. rewrite IH. reflexivity.
  - eexists. split; [apply StructsRev_calls_run, Hx|]. cbn. auto.
Qed.

Lemma SenderA_Send_leaves_caller_unchanged_runSenders :
  exists m',
    call_each (Structs.call_SenderA_Send "senderA")
              ["message one"; "message two"; "message three"] globals = Done tt m' /\
    vars m' !! "senderA" = Some (SenderA.Build "A" 0).
Proof.
  destruct (SenderA_Send_leaves_caller_unchanged globals "senderA"
              (SenderA.Build "A" 0) ["message one"; "message two"; "message three"])
    as [(m' & Hrun & Hx & _) _].
  - reflexivity.
  - exists m'. split; assumption.
Defined.

(** C9, as the code has it: for every [SenderB] cell whose [MessageCount]
    is below the largest [int], a call of the pointer-receiver [Send] (the
    same in both revisions) adds exactly 1 to the [MessageCount] of that
    very cell, leaves its [FirstName] and every other cell alone, and prints
    the new count; after [n] calls on a fresh sender, for [n] up to the
    largest [int], [MessageCount] is [n]. *)
Theorem SenderB_Send_increments_below_MaxInt
    (m : machine SenderA.t SenderB.t) (l : loc) (b : SenderB.t) (message : string)
    (msgs : list string) :
  heap m !! l = Some b ->
  (GoInt.MinInt <= SenderB.MessageCount b < GoInt.MaxInt ->
   Structs.SenderB_Send (addr l) message m =
     Done tt (Machine (vars m)
       (<[l := SenderB.Build (SenderB.FirstName b) (SenderB.MessageCount b + 1)]> (heap m))
       (trace m ++ [Stdout (Send_line (SenderB.MessageCount b + 1)
                                      (SenderB.FirstName b) message)])) /\
   StructsRev.SenderB_Send (addr l) message m =
     Structs.SenderB_Send (addr l) message m) /\
  (SenderB.MessageCount b = 0 -> Z.of_nat (length msgs) <= GoInt.MaxInt ->
   exists m',
     call_each (Structs.SenderB_Send (addr l)) msgs m = Done tt m' /\
     heap m' !! l = Some (SenderB.Build (SenderB.FirstName b) (Z.of_nat (length msgs))) /\
     (forall l', l' <> l -> heap m' !! l' = heap m !! l')).
Proof.
  intros Hl. split.
  - intros Hc. split; [|reflexivity].
    rewrite (SenderB_Send_run _ _ _ _ Hl).
    rewrite GoIntFacts.incr_below_max by exact Hc. reflexivity.
  - intros H0 Hn. destruct b as [name c]. cbn in H0. subst c.
    destruct (SenderB_calls_run l name msgs 0 m Hl) as (m' & Hrun & Hcell & Hframe & _).
    + unfold GoInt.MinInt, GoInt.intSize. lia.
    + lia.
    + exists m'. auto.
Qed.

Lemma SenderB_Send_increments_below_MaxInt_runSenders :
  exists m',
    call_each (Structs.SenderB_Send (addr senderB_loc))
              ["message one"; "message two"; "message three"] globals = Done tt m' /\
    heap m' !! senderB_loc = Some (SenderB.Build "B" 3).
Proof.
  destruct (SenderB_Send_increments_below_MaxInt globals senderB_loc
              (SenderB.Build "B" 0) "message one"
              ["message one"; "message two"; "message three"])
    as [_ Hcalls].
  - reflexivity.
  - destruct Hcalls as (m' & Hrun & Hcell & _).
    + reflexivity.
    + unfold GoInt.MaxInt, GoInt.intSize. cbn. lia.
    + exists m'. split; assumption.
Defined.

(** C9 as stated fails at the largest [int]: the count of the cell wraps
    round to the smallest [int] instead of going up by 1. *)
Lemma SenderB_Send_wraps_at_MaxInt :
  Structs.SenderB_Send (addr senderB_loc) "message one"
    (Machine ∅ {[ senderB_loc := SenderB.Build "B" GoInt.MaxInt ]} []) =
  Done tt (Machine ∅ {[ senderB_loc := SenderB.Build "B" GoInt.MinInt ]}
     [Stdout (Send_line GoInt.MinInt "B" "message one")]) /\
  GoInt.MinInt <> GoInt.MaxInt + 1.
Proof.
  split.
  - erewrite SenderB_Send_run by apply lookup_singleton_eq.
    cbn [SenderB.FirstName SenderB.MessageCount vars heap trace].
    rewrite GoIntFacts.incr_at_max, insert_singleton_eq. reflexivity.
  - discriminate.
Qed.

(** C4, as the code has it: the two revisions of [SenderB.Send] are the
    same function of the pointer, the message and the state.  The two
    revisions of [SenderA.Send] leave the same state behind, the caller's
    variables and cells untouched, but print different lines: the one of
    go_4_structs_interfaces.go includes the copy's incremented count, the
    one of the other revision has no count. *)
Theorem Send_revisions_compared
    (m : machine SenderA.t SenderB.t) (s : SenderA.t) (p : ptr) (message : string) :
  Structs.SenderB_Send p message m = StructsRev.SenderB_Send p message m /\
  exists m1 m2,
    Structs.SenderA_Send s message m = Done tt m1 /\
    StructsRev.SenderA_Send s message m = Done tt m2 /\
    vars m1 = vars m /\ heap m1 = heap m /\
    vars m2 = vars m /\ heap m2 = heap m /\
    trace m1 = trace m ++
      [Stdout (Send_line (GoInt.incr (SenderA.MessageCount s)) (SenderA.FirstName s) message)] /\
    trace m2 = trace m ++
      [Stdout ("Send from " +:+ SenderA.FirstName s +:+ ": " +:+ message +:+ newline)].
Proof.
  split; [reflexivity|].
  do 2 eexists.
  split; [apply Structs_SenderA_Send_run|].
  split; [apply StructsRev_SenderA_Send_run|].
  cbn. auto 10.
Qed.

(** C4 as stated fails for [SenderA]: on the sender named A and the message
    "message one" one revision prints a count and the other does not. *)
Lemma SenderA_Send_revisions_differ :
  stdout_of (trace (final
    (Structs.SenderA_Send (SenderA.Build "A" 0) "message one" globals))) =
    ["Send 1 from A: message one" +:+ newline] /\
  stdout_of (trace (final
    (StructsRev.SenderA_Send (SenderA.Build "A" 0) "message one" globals))) =
    ["Send from A: message one" +:+ newline] /\
  Structs.SenderA_Send (SenderA.Build "A" 0) "message one" globals <>
  StructsRev.SenderA_Send (SenderA.Build "A" 0) "message one" globals.
Proof.
  split; [reflexivity|]. split; [reflexivity|].
  rewrite Structs_SenderA_Send_run, StructsRev_SenderA_Send_run.
  intros Heq. apply (f_equal (fun o => stdout_of (trace (final o)))) in Heq.
  vm_compute in Heq. discriminate Heq.
Qed.

End SenderFacts.

(** ** Receivers and deferred clean-up in the functions script *)

Module FuncsFacts.
Import Runtime RuntimeFacts.

(** C10: for every caller's variable [x] holding a user [u] and every name
    [n], [x.updateNameAndCopy(n)] returns a user whose [firstName] is [n]
    and changes nothing, [x] included; for every cell holding a person,
    [updateMyName(n)] through a pointer to it sets the [firstName] of that
    very cell to [n], and touches nothing else. *)
Theorem receivers_copy_or_update_in_place
    (m : machine user.t person.t) (x : string) (u : user.t) (l : loc) (p : person.t)
    (n : string) :
  (vars m !! x = Some u ->
   exists r, Funcs.call_updateNameAndCopy x n m = Done r m /\
             user.firstName r = n /\ vars m !! x = Some u) /\
  (heap m !! l = Some p ->
   exists m', Funcs.updateMyName (addr l) n m = Done tt m' /\
              person.firstName <$> heap m' !! l = Some n /\
              heap m' = <[l := person.Build n]> (heap m) /\
              vars m' = vars m /\ trace m' = trace m).
Proof.
  split.
  - intros Hx. eexists. split; [|split; [|exact Hx]].
    + unfold Funcs.call_updateNameAndCopy.
      rewrite (bind_Done _ _ _ _ _ (getvar_Some _ _ _ Hx)). reflexivity.
    + reflexivity.
  - intros Hl. eexists. split.
    + unfold Funcs.updateMyName.
      rewrite (bind_Done _ _ _ _ _ (load_addr _ _ _ Hl)).
      apply (store_addr _ _ _ _ Hl).
    + cbn. rewrite lookup_insert_eq. auto.
Qed.

Lemma receivers_copy_or_update_in_place_main :
  (exists r, Funcs.call_updateNameAndCopy "firstUser" "alice"
               (Machine {[ "firstUser" := user.Build "" ]} ∅ []) =
             Done r (Machine {[ "firstUser" := user.Build "" ]} ∅ []) /\
             user.firstName r = "alice") /\
  (exists m', Funcs.updateMyName (addr 1%positive) "jordan"
                (Machine ∅ {[ 1%positive := person.Build "" ]} []) = Done tt m' /\
              person.firstName <$> heap m' !! 1%positive = Some "jordan").
Proof.
  destruct (receivers_copy_or_update_in_place
              (Machine {[ "firstUser" := user.Build "" ]} ∅ []) "firstUser"
              (user.Build "") 1%positive (person.Build "") "alice") as [Hcopy _].
  destruct (receivers_copy_or_update_in_place
              (Machine ∅ {[ 1%positive := person.Build "" ]} []) "firstUser"
              (user.Build "") 1%positive (person.Build "") "jordan") as [_ Hptr].
  split.
  - destruct Hcopy as (r & Hrun & Hname & _); [reflexivity|].
    exists r. split; assumption.
  - destruct Hptr as (m' & Hrun & Hname & _); [reflexivity|].
    exists m'. split; assumption.
Defined.

(** The numbered sections print four lines and leave [firstUser] and the
    cell of [firstPerson] renamed. *)
Lemma main_sections_run (m : machine user.t person.t) :
  Funcs.main_sections m =
  Done tt (Machine
    (<["firstUser" := user.Build "alice"]> (<["firstUser" := user.Build ""]> (vars m)))
    (<[fresh (dom (heap m)) := person.Build "jordan"]>
       (<[fresh (dom (heap m)) := person.Build ""]> (heap m)))
    (trace m ++ [Stdout ("whizzbang!" +:+ newline);
                 Stdout ("whizzbang! more stuff " +:+ newline);
                 Stdout ("alice" +:+ newline);
                 Stdout ("jordan" +:+ newline)])).
Proof.
  unfold Funcs.main_sections, Funcs.call_updateNameAndCopy, Funcs.updateMyName,
    bind, fmt_Println, emit, setvar, getvar, alloc, load, store, ret.
  cbn [vars heap trace].
  repeat (rewrite !lookup_insert_eq; cbn [vars heap trace]).
  cbn [person.firstName user.firstName].
  rewrite <- !app_assoc. reflexivity.
Qed.

(** C6: whenever setting up the database connection fails, be it in
    [sql.Open] or in [db.Conn], [main] logs its message and the process
    exits with status 1 right there: nothing is printed, no variable or
    cell is touched, no deferred call runs and nothing more is asked of
    the database.  In no run is the connection used for anything but
    being opened and closed. *)
Theorem main_exits_when_setup_fails
    (sql_Open_ok db_Conn_ok : bool) (m : machine user.t person.t) :
  (sql_Open_ok = false ->
   Funcs.main sql_Open_ok db_Conn_ok m =
   Exit 1 (Machine (vars m) (heap m)
     (trace m ++
      [Extern "sql.Open";
       Stderr ("Killing program, check the host/port/user string for syntax errors."
               +:+ newline)]))) /\
  (sql_Open_ok = true -> db_Conn_ok = false ->
   Funcs.main sql_Open_ok db_Conn_ok m =
   Exit 1 (Machine (vars m) (heap m)
     (trace m ++
      [Extern "sql.Open"; Extern "db.Conn";
       Stderr ("Killing program, couldn't reach the db for a connection."
               +:+ newline)]))) /\
  (extern_of (trace (final (Funcs.main sql_Open_ok db_Conn_ok m))) =
   extern_of (trace m) ++
   (if sql_Open_ok
    then if db_Conn_ok then ["sql.Open"; "db.Conn"; "conn.Close"]
         else ["sql.Open"; "db.Conn"]
    else ["sql.Open"])).
Proof.
  split; [|split].
  - intros ->. unfold Funcs.main.
    do 2 (erewrite defer_Exit; [reflexivity|]).
    cbn. rewrite <- app_assoc. reflexivity.
  - intros -> ->. unfold Funcs.main.
    do 2 (erewrite defer_Exit; [reflexivity|]).
    cbn. rewrite <- !app_assoc. reflexivity.
  - destruct sql_Open_ok, db_Conn_ok; unfold Funcs.main.
    + unfold defer at 1 2 3, bind, emit, ret. cbn [vars heap trace].
      rewrite main_sections_run. cbn [final vars heap trace fmt_Println emit].
      unfold extern_of. rewrite <- !app_assoc, !omap_app. reflexivity.
    + cbn. unfold extern_of. rewrite <- !app_assoc, !omap_app. reflexivity.
    + cbn. unfold extern_of. rewrite <- !app_assoc, !omap_app. reflexivity.
    + cbn. unfold extern_of. rewrite <- !app_assoc, !omap_app. reflexivity.
Qed.

Lemma main_exits_when_setup_fails_start :
  Funcs.main false true Funcs.start =
  Exit 1 (Machine ∅ ∅
    [Extern "sql.Open";
     Stderr ("Killing program, check the host/port/user string for syntax errors."
             +:+ newline)]) /\
  Funcs.main true false Funcs.start =
  Exit 1 (Machine ∅ ∅
    [Extern "sql.Open"; Extern "db.Conn";
     Stderr ("Killing program, couldn't reach the db for a connection."
             +:+ newline)]).
Proof.
  split.
  - apply (proj1 (main_exits_when_setup_fails false true Funcs.start)). reflexivity.
  - apply (proj1 (proj2 (main_exits_when_setup_fails true false Funcs.start)));
      reflexivity.
Defined.

End FuncsFacts.

(** ** Map lookups *)

Module BasicsFacts.
Import Basics.

Section MapFacts.
Context {K : Type} `{EqDecision K} {V : Type} `{Zero V}.
Implicit Types (m : list (K * V)) (k : K) (v : V).

Lemma mapaccess2_miss m k : k ∉ keys m -> mapaccess2 m k = (zero, false).
Proof.
  unfold keys. induction m as [|[k' v'] m IH]; intros Hk; cbn [mapaccess2].
  - reflexivity.
  - cbn in Hk. apply not_elem_of_cons in Hk as [Hne Hk].
    rewrite decide_False by congruence. apply IH, Hk.
Qed.

Lemma mapaccess2_hit m k v :
  NoDup (keys m) -> (k, v) ∈ m -> mapaccess2 m k = (v, true).
Proof.
  unfold keys. induction m as [|[k' v'] m IH]; intros Hnd Hin; cbn [mapaccess2].
  - inversion Hin.
  - cbn in Hnd. apply NoDup_cons in Hnd as [Hfresh Hnd].
    apply elem_of_cons in Hin as [[= <- <-]|Hin].
    + rewrite decide_True by reflexivity. reflexivity.
    + rewrite decide_False; [apply IH; assumption|].
      intros ->. apply Hfresh. apply list_elem_of_fmap. exists (k, v). auto.
Qed.

Lemma mapaccess2_flag m k : (mapaccess2 m k).2 = bool_decide (k ∈ keys m).
Proof.
  unfold keys. induction m as [|[k' v'] m IH]; cbn [mapaccess2].
  - rewrite bool_decide_eq_false_2 by apply not_elem_of_nil. reflexivity.
  - destruct (decide (k' = k)) as [->|Hne]; cbn [snd fmap list_fmap fst].
    + rewrite bool_decide_eq_true_2 by left. reflexivity.
    + rewrite IH. apply bool_decide_ext. rewrite elem_of_cons. intuition congruence.
Qed.

(** The three statements keep one entry per key. *)
Lemma keys_map_delete m k : keys (map_delete m k) = filter (fun k' => k' <> k) (keys m).
Proof.
  unfold keys. induction m as [|[k' v'] m IH]; cbn [map_delete]; [reflexivity|].
  cbn [fmap list_fmap fst]. rewrite filter_cons.
  destruct (decide (k' = k)) as [->|Hne].
  - rewrite decide_False by (intros Hc; apply Hc; reflexivity). exact IH.
  - rewrite decide_True by exact Hne. cbn [fmap list_fmap fst]. rewrite IH. reflexivity.
Qed.

Lemma mapaccess2_map_delete_ne m k k' :
  k' <> k -> mapaccess2 (map_delete m k) k' = mapaccess2 m k'.
Proof.
  intros Hne. induction m as [|[k0 v0] m IH]; cbn [map_delete mapaccess2];
    [reflexivity|].
  destruct (decide (k0 = k)) as [->|Hk0].
  - rewrite decide_False by congruence. exact IH.
  - cbn [mapaccess2]. rewrite IH. reflexivity.
Qed.

Lemma NoDup_map_delete m k : NoDup (keys m) -> NoDup (keys (map_delete m k)).
Proof. intros Hnd. rewrite keys_map_delete. apply NoDup_filter, Hnd. Qed.

Lemma keys_map_assign m k v :
  keys (map_assign m k v) = if bool_decide (k ∈ keys m) then keys m else keys m ++ [k].
Proof.
  unfold keys. induction m as [|[k' v'] m IH]; cbn [map_assign].
  - rewrite bool_decide_eq_false_2 by apply not_elem_of_nil. reflexivity.
  - destruct (decide (k' = k)) as [->|Hne]; cbn [fmap list_fmap fst].
    + rewrite bool_decide_eq_true_2 by left. reflexivity.
    + rewrite IH. destruct (bool_decide_reflect (k ∈ m.*1)) as [Hin|Hout].
      * rewrite bool_decide_eq_true_2 by (right; exact Hin). reflexivity.
      * rewrite bool_decide_eq_false_2; [reflexivity|].
        intros Hin. apply elem_of_cons in Hin as [->|Hin]; [congruence|tauto].
Qed.

Lemma NoDup_map_assign m k v : NoDup (keys m) -> NoDup (keys (map_assign m k v)).
Proof.
  intros Hnd. rewrite keys_map_assign.
  destruct (bool_decide_reflect (k ∈ keys m)) as [Hin|Hout]; [exact Hnd|].
  apply NoDup_app. split; [exact Hnd|]. split; [|apply NoDup_singleton].
  intros x Hx Hx'. apply list_elem_of_singleton in Hx' as ->. tauto.
Qed.

End MapFacts.

(** C7: for every map and every key, indexing with a key the map does not
    have does not fail: it gives the zero value of the value type (0 for
    [int]) with a false key-exists flag, and the map is as before; with a
    key the map has, it gives the stored value with a true flag.  The
    index is the runtime's, modelled from the spec as [mapaccess2]. *)
Theorem map_index_zero_on_miss {K : Type} `{EqDecision K} {V : Type} `{Zero V}
    (m : list (K * V)) (k : K) :
  (k ∉ keys m -> map_index m k = (zero, false, m)) /\
  (forall v, NoDup (keys m) -> (k, v) ∈ m -> map_index m k = (v, true, m)) /\
  (forall (ages : list (string * Z)) (name : string),
     name ∉ keys ages -> map_index ages name = (0, false, ages)).
Proof.
  unfold map_index. split; [|split].
  - intros Hk. rewrite (mapaccess2_miss m k Hk). reflexivity.
  - intros v Hnd Hin. rewrite (mapaccess2_hit m k v Hnd Hin). reflexivity.
  - intros ages name Hk. rewrite (mapaccess2_miss ages name Hk). reflexivity.
Qed.

Lemma map_index_zero_on_miss_nameToAge :
  map_index (map_delete [("Bob", 42); ("Alice", 33)] "Bob") "Bob" =
    (0, false, map_delete [("Bob", 42); ("Alice", 33)] "Bob") /\
  map_index [("Bob", 42); ("Alice", 33)] "Bob" =
    (42, true, [("Bob", 42); ("Alice", 33)]).
Proof.
  split.
  - apply (proj1 (map_index_zero_on_miss
                    (map_delete [("Bob", 42); ("Alice", 33)] "Bob") "Bob")).
    intros Hin. apply list_elem_of_singleton in Hin. discriminate Hin.
  - apply (proj1 (proj2 (map_index_zero_on_miss [("Bob", 42); ("Alice", 33)] "Bob"))).
    + apply NoDup_cons. split; [|apply NoDup_singleton].
      intros Hin. apply list_elem_of_singleton in Hin. discriminate Hin.
    + left.
Defined.

(** What the maps section of the script prints, and the map it ends with. *)
Lemma maps_section_run :
  maps_section =
  (["42" +:+ Runtime.newline; "{Evan Gopher456}" +:+ Runtime.newline;
    "key[Alice] value[33]" +:+ Runtime.newline], []).
Proof. vm_compute. reflexivity. Qed.

End BasicsFacts.

(** ** The goroutines script *)

Module GoroutinesFacts.
Import Goroutines.

(** *** The message loop *)







(** With the printing goroutine idle, the first three of the eight
    messages of the script are queued and the other five are dropped. *)
Lemma send_loop_idle_printer :
  map taken (send_loop messages [] (Shared messageChan None [])).1 =
    [sent; sent; sent; dropped; dropped; dropped; dropped; dropped] /\
  Chan.buffer (chan (send_loop messages [] (Shared messageChan None [])).2) =
    ["foo"; "bar"; "bazz"].
Proof. split; reflexivity. Qed.


(** The endless sender of the other script has the same two outcomes. *)
Lemma sender_step_sends_or_reports (st : Chan.t string * list string) :
  if Chan.full st.1
  then Basics.sender_step st =
       (st.1, st.2 ++ ["channel is full!" +:+ Runtime.newline])
  else Basics.sender_step st =
       (Chan.Make (Chan.capacity st.1) (Chan.buffer st.1 ++ ["foo"]),
        st.2 ++ ["sent a message" +:+ Runtime.newline]).
Proof.
  unfold Basics.sender_step, Chan.try_send.
  destruct (Chan.full st.1); reflexivity.
Qed.

(** *** The waiting loop *)

Lemma done_count_nonneg events : 0 <= done_count events.
Proof. induction events as [|[] events IH]; cbn [done_count]; lia. Qed.

Lemma incr_small c : 0 <= c < workers -> GoInt.incr c = c + 1.
Proof.
  intros Hc. apply GoIntFacts.incr_below_max.
  unfold workers, GoInt.MinInt, GoInt.MaxInt, GoInt.intSize in *. lia.
Qed.

(** Completion messages short of the last one keep the loop going. *)
Lemma main_wait_app pre : forall c rest,
  tickerChan ∉ pre -> 0 <= c -> c + done_count pre < workers ->
  main_wait c (pre ++ rest) = main_wait (c + done_count pre) rest.
Proof.
  induction pre as [|e pre IH]; intros c rest Hno Hc Hlt.
  - cbn. rewrite Z.add_0_r. reflexivity.
  - apply not_elem_of_cons in Hno as [Hne Hno].
    destruct e; [congruence|].
    cbn [done_count] in Hlt. pose proof (done_count_nonneg pre).
    cbn [app main_wait done_count].
    rewrite incr_small by lia.
    destruct (Z.eqb_spec (c + 1) workers) as [Heq|_]; [lia|].
    rewrite IH by (assumption || lia). f_equal. lia.
Qed.

Lemma main_wait_returns events : forall c,
  0 <= c < workers ->
  tickerChan ∈ events \/ workers <= c + done_count events ->
  exists msg rest, main_wait c events = Returned msg rest.
Proof.
  induction events as [|e events IH]; intros c Hc Hstop.
  - destruct Hstop as [Hin|Hge]; [inversion Hin|cbn in Hge; lia].
  - destruct e; cbn [main_wait done_count] in *; [eauto|].
    rewrite incr_small by exact Hc.
    destruct (Z.eqb_spec (c + 1) workers) as [Heq|Hne]; [eauto|].
    apply IH; [lia|].
    destruct Hstop as [Hin|Hge]; [left|right; lia].
    apply elem_of_cons in Hin as [Heq|Hin]; [discriminate|exact Hin].
Qed.

(** C2: the waiting loop of [main] returns exactly when the first of two
    things happens: a message is taken from the ticker channel, or the
    fourth completion message is taken from the done channel.  After any
    events that include neither, the loop is still waiting in its
    [select], with the completions counted so far. *)
Theorem main_wait_returns_exactly (events : list event) :
  (tickerChan ∉ events -> done_count events < workers ->
   main_wait 0 events = Waiting (done_count events)) /\
  ((exists msg rest, main_wait 0 events = Returned msg rest) <->
   (tickerChan ∈ events \/ workers <= done_count events)) /\
  (forall pre post, events = pre ++ tickerChan :: post ->
     tickerChan ∉ pre -> done_count pre < workers ->
     main_wait 0 events = Returned timeout_message post) /\
  (forall pre post, events = pre ++ workerDoneChan :: post ->
     tickerChan ∉ pre -> done_count pre = workers - 1 ->
     main_wait 0 events = Returned all_done_message post).
Proof.
  assert (Hwait : tickerChan ∉ events -> done_count events < workers ->
                  main_wait 0 events = Waiting (done_count events)).
  { intros Hno Hlt. rewrite <- (app_nil_r events) at 1.
    rewrite main_wait_app by (assumption || lia). reflexivity. }
  split; [exact Hwait|]. split; [split|split].
  - intros (msg & rest & Hret).
    destruct (decide (tickerChan ∈ events)) as [|Hno]; [by left|].
    destruct (Z_lt_le_dec (done_count events) workers) as [Hlt|]; [|by right].
    rewrite (Hwait Hno Hlt) in Hret. discriminate.
  - intros Hstop. apply main_wait_returns; [unfold workers; lia|exact Hstop].
  - intros pre post -> Hno Hlt.
    rewrite main_wait_app by (assumption || lia). reflexivity.
  - intros pre post -> Hno Hlast.
    rewrite main_wait_app by (assumption || lia).
    cbn [main_wait]. rewrite Z.add_0_l, Hlast. reflexivity.
Qed.

Lemma main_wait_returns_exactly_runs :
  main_wait 0 [workerDoneChan; workerDoneChan] = Waiting 2 /\
  main_wait 0 [workerDoneChan; workerDoneChan; tickerChan; workerDoneChan] =
    Returned timeout_message [workerDoneChan] /\
  main_wait 0 [workerDoneChan; workerDoneChan; workerDoneChan; workerDoneChan;
               tickerChan] =
    Returned all_done_message [tickerChan].
Proof.
  split; [|split].
  - apply (proj1 (main_wait_returns_exactly [workerDoneChan; workerDoneChan])).
    + intros Hin. repeat (apply elem_of_cons in Hin as [Hin|Hin]; [discriminate|]).
      inversion Hin.
    + reflexivity.
  - apply (proj1 (proj2 (proj2 (main_wait_returns_exactly
             [workerDoneChan; workerDoneChan; tickerChan; workerDoneChan])))
             [workerDoneChan; workerDoneChan] [workerDoneChan]).
    + reflexivity.
    + intros Hin. repeat (apply elem_of_cons in Hin as [Hin|Hin]; [discriminate|]).
      inversion Hin.
    + reflexivity.
  - apply (proj2 (proj2 (proj2 (main_wait_returns_exactly
             [workerDoneChan; workerDoneChan; workerDoneChan; workerDoneChan;
              tickerChan])))
             [workerDoneChan; workerDoneChan; workerDoneChan] [tickerChan]).
    + reflexivity.
    + intros Hin. repeat (apply elem_of_cons in Hin as [Hin|Hin]; [discriminate|]).
      inversion Hin.
    + reflexivity.
Defined.

(** *** The spammers *)

(** One round of the spammer picks one of the four symbols. *)
Lemma spammer_pick raw :
  exists i randomStock,
    rand_Intn raw (Z.of_nat (length stockSymbols)) = Some i /\
    stockSymbols !! Z.to_nat i = Some randomStock /\
    randomStock ∈ stockSymbols.
Proof.
  exists (raw mod 4).
  assert (Hi : raw mod 4 = 0 \/ raw mod 4 = 1 \/ raw mod 4 = 2 \/ raw mod 4 = 3)
    by (pose proof (Z.mod_pos_bound raw 4); lia).
  unfold rand_Intn. change (Z.of_nat (length stockSymbols)) with 4.
  change (4 <=? 0) with false. cbv iota.
  destruct Hi as [-> | [-> | [-> | ->]]]; eexists;
    (split; [reflexivity|]); (split; [reflexivity|]);
    unfold stockSymbols; set_solver.
Qed.

Lemma symbol_has_one_worker s :
  s ∈ stockSymbols ->
  length (filter (fun w : string * string => w.1 = s) worker_args) = 1%nat.
Proof.
  unfold stockSymbols. intros Hs.
  repeat (apply elem_of_cons in Hs as [-> | Hs]; [reflexivity|]).
  inversion Hs.
Qed.

(** C5: whatever the random generator draws, a spammer never panics and
    puts one value in the stock channel per round, and every such value
    is one of "AAPL", "GOOG", "FB" and "AMZN"; each of them is the ticker
    of exactly one of the four workers [main] starts. *)
Theorem stockSymbolSpammer_sends_known_symbols (raws : list Z) :
  exists sends,
    stockSymbolSpammer raws = Some sends /\
    length sends = length raws /\
    Forall (fun s => s ∈ stockSymbols /\
                     length (filter (fun w : string * string => w.1 = s) worker_args)
                     = 1%nat)
           sends.
Proof.
  induction raws as [|raw raws (sends & Hrun & Hlen & Hall)].
  - exists []. repeat split. constructor.
  - destruct (spammer_pick raw) as (i & randomStock & Hi & Hpick & Hin).
    exists (randomStock :: sends). cbn [stockSymbolSpammer].
    rewrite Hi. cbn [mbind option_bind]. rewrite Hpick, Hrun. cbn [mbind option_bind].
    split; [reflexivity|]. split; [cbn; rewrite Hlen; reflexivity|].
    constructor; [|exact Hall].
    split; [exact Hin|apply symbol_has_one_worker, Hin].
Qed.

(** *** The workers *)

Lemma matching_nonneg ticker stockChan : 0 <= matching ticker stockChan.
Proof.
  induction stockChan as [|s stockChan IH]; cbn [matching]; [lia|].
  destruct (String.eqb s ticker); lia.
Qed.

(** A worker that returns has put exactly one value in the done channel,
    and one that is still waiting has put none. *)
Lemma worker_done_once ticker icon maxEmojis closed stockChan :
  forall emojiCount printed,
    done_sent (range_stockChan ticker icon maxEmojis closed emojiCount printed stockChan)
    = if finished (range_stockChan ticker icon maxEmojis closed emojiCount printed stockChan)
      then [true] else [].
Proof.
  induction stockChan as [|s stockChan IH]; intros c p; cbn [range_stockChan].
  - destruct closed; reflexivity.
  - destruct (String.eqb s ticker);
      match goal with |- context [?a <? ?b] => destruct (a <? b) end;
      solve [reflexivity | apply IH].
Qed.

(** A worker returns when its channel is closed or when it has read more
    than [maxEmojis] matching symbols. *)
Lemma worker_finished ticker icon maxEmojis closed stockChan :
  forall emojiCount printed,
    GoInt.MinInt <= emojiCount <= maxEmojis -> maxEmojis < GoInt.MaxInt ->
    finished (range_stockChan ticker icon maxEmojis closed emojiCount printed stockChan)
    = closed || (maxEmojis <? emojiCount + matching ticker stockChan).
Proof.
  induction stockChan as [|s stockChan IH]; intros c p Hc Hmax;
    cbn [range_stockChan matching].
  - rewrite Z.add_0_r. destruct (Z.ltb_spec maxEmojis c); [lia|].
    destruct closed; reflexivity.
  - pose proof (matching_nonneg ticker stockChan).
    destruct (String.eqb s ticker).
    + rewrite GoIntFacts.incr_below_max by lia.
      destruct (Z.ltb_spec maxEmojis (c + 1)).
      * cbn. destruct (Z.ltb_spec maxEmojis (c + (1 + matching ticker stockChan))); [|lia].
        destruct closed; reflexivity.
      * rewrite IH by lia. do 2 f_equal. lia.
    + destruct (Z.ltb_spec maxEmojis c); [lia|]. rewrite IH by lia. reflexivity.
Qed.

(** The tally a worker ends with: the matching symbols it was handed, up
    to [maxEmojis + 1], and one icon printed for each. *)
Lemma worker_tally ticker icon maxEmojis closed stockChan :
  forall emojiCount printed,
    GoInt.MinInt <= emojiCount <= maxEmojis -> maxEmojis < GoInt.MaxInt ->
    Goroutines.emojiCount
      (range_stockChan ticker icon maxEmojis closed emojiCount printed stockChan)
    = Z.min (emojiCount + matching ticker stockChan) (maxEmojis + 1) /\
    Goroutines.printed
      (range_stockChan ticker icon maxEmojis closed emojiCount printed stockChan)
    = printed ++
      replicate
        (Z.to_nat (Z.min (emojiCount + matching ticker stockChan) (maxEmojis + 1)
                   - emojiCount))
        icon.
Proof.
  induction stockChan as [|s stockChan IH]; intros c p Hc Hmax;
    cbn [range_stockChan matching].
  - rewrite Z.add_0_r, Z.min_l by lia. rewrite Z.sub_diag.
    destruct closed; cbn; rewrite app_nil_r; auto.
  - pose proof (matching_nonneg ticker stockChan).
    destruct (String.eqb s ticker).
    + rewrite GoIntFacts.incr_below_max by lia.
      destruct (Z.ltb_spec maxEmojis (c + 1)).
      * cbn [Goroutines.emojiCount Goroutines.printed].
        rewrite Z.min_r by lia.
        replace (maxEmojis + 1 - c) with 1 by lia.
        split; [lia|reflexivity].
      * destruct (IH (c + 1) (p ++ [icon])) as [Hcount Hprinted]; [lia|lia|].
        rewrite Hcount, Hprinted.
        replace (c + 1 + matching ticker stockChan)
          with (c + (1 + matching ticker stockChan)) by lia.
        split; [reflexivity|].
        rewrite <- app_assoc. f_equal.
        set (k := Z.min (c + (1 + matching ticker stockChan)) (maxEmojis + 1)).
        assert (c + 1 <= k) by (unfold k; lia).
        replace (Z.to_nat (k - c)) with (S (Z.to_nat (k - (c + 1)))) by lia.
        reflexivity.
    + destruct (Z.ltb_spec maxEmojis c); [lia|].
      rewrite Z.add_0_l. apply IH; lia.
Qed.

(** C1 is not what the code does: a worker stops only once its tally is
    above [maxEmojis].  With the cap at 2 and four matching symbols in the
    channel, it counts and prints three and leaves the fourth. *)
Theorem stockEmojiWorker_counts_past_cap :
  stockEmojiWorker ["AAPL"; "AAPL"; "AAPL"; "AAPL"] false "AAPL" "*" 2 =
  WorkerEnd 3 ["*"; "*"; "*"] ["AAPL"] [true] true.
Proof. reflexivity. Qed.

(** The workers of the script, capped at 100000, each print 100001 icons
    when the channel gives them that many of their symbol. *)
Lemma stockEmojiWorker_in_main ticker icon stockChan closed :
  maxEmojis < matching ticker stockChan ->
  Goroutines.emojiCount (stockEmojiWorker stockChan closed ticker icon maxEmojis)
    = maxEmojis + 1 /\
  Z.of_nat (length (Goroutines.printed
                      (stockEmojiWorker stockChan closed ticker icon maxEmojis)))
    = 100001 /\
  done_sent (stockEmojiWorker stockChan closed ticker icon maxEmojis) = [true].
Proof.
  intros Hmany. unfold stockEmojiWorker.
  assert (Hc : GoInt.MinInt <= 0 <= maxEmojis) by (vm_compute; split; discriminate).
  assert (Hmax : maxEmojis < GoInt.MaxInt) by reflexivity.
  destruct (worker_tally ticker icon maxEmojis closed stockChan 0 [] Hc Hmax)
    as [Hcount Hprinted].
  rewrite Hcount, Hprinted, worker_done_once, worker_finished by assumption.
  rewrite Z.add_0_l, Z.min_r by lia.
  split; [reflexivity|]. split.
  - cbn [app]. rewrite length_replicate, Z2Nat.id by (vm_compute; discriminate).
    reflexivity.
  - destruct (Z.ltb_spec maxEmojis (matching ticker stockChan)); [|lia].
    rewrite orb_true_r. reflexivity.
Qed.

End GoroutinesFacts.


(** ** The stock pipeline as a whole *)

Module PipelineFacts.
Import Pipeline.

Lemma try_recv_Some {A} (c c' : Chan.t A) v :
  Chan.try_recv c = Some (v, c') ->
  Chan.buffer c = v :: Chan.buffer c' /\ Chan.capacity c' = Chan.capacity c.
Proof.
  unfold Chan.try_recv. destruct (Chan.buffer c) as [|v' rest] eqn:Hb; [discriminate|].
  intros [= -> <-]. cbn. auto.
Qed.

Lemma try_send_Some {A} (c c' : Chan.t A) v :
  Chan.try_send c v = Some c' ->
  Chan.buffer c' = Chan.buffer c ++ [v] /\ Chan.capacity c' = Chan.capacity c /\
  (length (Chan.buffer c) < Chan.capacity c)%nat.
Proof.
  unfold Chan.try_send, Chan.full.
  destruct (Nat.leb_spec (Chan.capacity c) (length (Chan.buffer c))); [discriminate|].
  intros [= <-]. cbn. auto.
Qed.

Lemma try_send_None {A} (c : Chan.t A) v :
  Chan.try_send c v = None -> (Chan.capacity c <= length (Chan.buffer c))%nat.
Proof.
  unfold Chan.try_send, Chan.full.
  destruct (Nat.leb_spec (Chan.capacity c) (length (Chan.buffer c))); [auto|discriminate].
Qed.

Lemma returned_count_insert l : forall i w w',
  l !! i = Some w ->
  returned_count (<[i := w']> l) =
  returned_count l + (if decide (status w' = returned) then 1 else 0)
                   - (if decide (status w = returned) then 1 else 0).
Proof.
  unfold returned_count.
  induction l as [|x l IH]; intros [|i] w w' Hl; try discriminate.
  - injection Hl as ->. change (<[0%nat := w']> (w :: l)) with (w' :: l).
    rewrite !filter_cons.
    repeat case_decide; cbn [length]; lia.
  - change (<[S i := w']> (x :: l)) with (x :: <[i := w']> l).
    change ((x :: l) !! S i) with (l !! i) in Hl.
    rewrite !filter_cons. specialize (IH i w w' Hl).
    destruct (decide (status x = returned)); cbn [length];
      rewrite ?Nat2Z.inj_succ, IH; lia.
Qed.

Lemma tally_insert l : forall i w w',
  l !! i = Some w ->
  tally (<[i := w']> l) = tally l + emojiCount w' - emojiCount w.
Proof.
  induction l as [|x l IH]; intros [|i] w w' Hl; try discriminate.
  - injection Hl as ->. change (<[0%nat := w']> (w :: l)) with (w' :: l). cbn. lia.
  - change (<[S i := w']> (x :: l)) with (x :: <[i := w']> l).
    change ((x :: l) !! S i) with (l !! i) in Hl.
    change (tally (x :: <[i := w']> l)) with (emojiCount x + tally (<[i := w']> l)).
    change (tally (x :: l)) with (emojiCount x + tally l).
    rewrite (IH i w w' Hl). lia.
Qed.

Lemma args_insert (l : list worker) i w w' :
  l !! i = Some w -> ticker w' = ticker w -> icon w' = icon w ->
  map (fun w => (ticker w, icon w)) (<[i := w']> l)
  = map (fun w => (ticker w, icon w)) l.
Proof.
  intros Hl Ht Hi. change (@map) with (@fmap list _) in *.
  rewrite list_fmap_insert, Ht, Hi.
  apply list_insert_id. rewrite list_lookup_fmap, Hl. reflexivity.
Qed.

Lemma returned_count_bound l : 0 <= returned_count l <= Z.of_nat (length l).
Proof. unfold returned_count. pose proof (length_filter (fun w => status w = returned) l). lia. Qed.

Lemma draw_known raw sym : draw raw = Some sym -> sym ∈ Goroutines.stockSymbols.
Proof.
  unfold draw. destruct (GoroutinesFacts.spammer_pick raw) as (i & s & -> & Hs & Hin).
  cbn [mbind option_bind]. rewrite Hs. intros [= <-]. exact Hin.
Qed.

Lemma draw_total raw : is_Some (draw raw).
Proof.
  unfold draw. destruct (GoroutinesFacts.spammer_pick raw) as (i & s & -> & Hs & _).
  cbn [mbind option_bind]. rewrite Hs. eauto.
Qed.

Lemma start_invariant cap : 0 <= cap < GoInt.MaxInt -> invariant (start cap).
Proof.
  intros Hcap. constructor; cbn.
  - lia.
  - reflexivity.
  - reflexivity.
  - reflexivity.
  - lia.
  - reflexivity.
  - repeat constructor; cbn; lia.
  - constructor.
  - repeat constructor; discriminate.
  - constructor.
  - reflexivity.
Qed.

Lemma spam_step_invariant j raw s :
  main_status s = waiting -> invariant s -> invariant (spam_step j raw s).
Proof.
  intros Hmain Hinv.
  pose proof Hinv as [Hstock Hcap Hargs Hdone Hfin Hm Hws Hsym Hheld Hicons Hout].
  unfold spam_step.
  destruct (spammers s !! j) as [held|] eqn:Hj; [|assumption].
  assert (Hknown : forall sym,
             match held with Some sym => Some sym | None => draw raw end = Some sym ->
             sym ∈ Goroutines.stockSymbols).
  { intros sym. destruct held as [sym'|].
    - intros [= <-]. exact (proj1 (Forall_lookup _ _) Hheld j _ Hj sym' eq_refl).
    - apply draw_known. }
  destruct (match held with Some sym => Some sym | None => draw raw end)
    as [randomStock|] eqn:Hdraw.
  - specialize (Hknown _ eq_refl).
    destruct (Chan.try_send (stockTickerChan s) randomStock) as [c|] eqn:Hsend.
    + apply try_send_Some in Hsend as (Hb & Hc & Hroom).
      constructor; cbn;
        [ rewrite Hb, Hc, length_app; cbn; lia
        | assumption | assumption | assumption | assumption | assumption | assumption
        | rewrite Hb; apply Forall_app; split; [assumption|by constructor]
        | apply Forall_insert; [assumption|discriminate]
        | assumption | assumption ].
    + constructor; cbn;
        [ assumption | assumption | assumption | assumption | assumption | assumption
        | assumption | assumption
        | apply Forall_insert; [assumption|]; intros sym [= <-]; exact Hknown
        | assumption | assumption ].
  - destruct held; [discriminate|].
    destruct (draw_total raw) as [sym Hsym']. congruence.
Qed.

Lemma work_step_invariant i s :
  main_status s = waiting -> invariant s -> invariant (work_step i s).
Proof.
  intros Hmain Hinv.
  pose proof Hinv as [Hstock Hcap Hargs Hdone Hfin Hm Hws Hsym Hheld Hicons Hout].
  unfold work_step.
  destruct (ws s !! i) as [w|] eqn:Hi; [|assumption].
  pose proof (proj1 (Forall_lookup _ _) Hws i w Hi) as [Hmax Hw].
  assert (Hicon : icon w ∈ Goroutines.worker_args.*2).
  { rewrite <- Hargs. apply list_elem_of_fmap. exists (ticker w, icon w).
    split; [reflexivity|]. apply list_elem_of_fmap. exists w. split; [reflexivity|].
    eapply list_elem_of_lookup_2, Hi. }
  destruct (status w) eqn:Hst.
  - destruct (Chan.try_recv (stockTickerChan s)) as [[stockSymbol c]|] eqn:Hrecv;
      [|assumption].
    apply try_recv_Some in Hrecv as (Hb & Hc).
    rewrite Hb in Hstock, Hsym. cbn [length] in Hstock.
    apply Forall_cons in Hsym as [_ Hsym].
    assert (Hincr : GoInt.incr (emojiCount w) = emojiCount w + 1).
    { apply GoIntFacts.incr_below_max.
      unfold GoInt.MinInt, GoInt.intSize. lia. }
    destruct (String.eqb stockSymbol (ticker w)).
    + rewrite Hincr.
      constructor; cbn;
        [ lia | assumption | (erewrite args_insert; [exact Hargs|exact Hi|reflexivity|reflexivity])
        | rewrite (returned_count_insert _ _ _ _ Hi), Hst; cbn;
          destruct (Z.ltb_spec (maxEmojis w) (emojiCount w + 1));
          repeat case_decide; try discriminate; lia
        | assumption | assumption
        | apply Forall_insert; [assumption|]; split; [exact Hmax|]; cbn;
          destruct (Z.ltb_spec (maxEmojis w) (emojiCount w + 1)); cbn; lia
        | assumption | assumption
        | apply Forall_app; split; [assumption|by constructor]
        | rewrite length_app, (tally_insert _ _ _ _ Hi); cbn; lia ].
    + constructor; cbn;
        [ lia | assumption | (erewrite args_insert; [exact Hargs|exact Hi|reflexivity|reflexivity])
        | rewrite (returned_count_insert _ _ _ _ Hi), Hst; cbn;
          destruct (Z.ltb_spec (maxEmojis w) (emojiCount w));
          repeat case_decide; try discriminate; lia
        | assumption | assumption
        | apply Forall_insert; [assumption|]; split; [exact Hmax|]; cbn;
          destruct (Z.ltb_spec (maxEmojis w) (emojiCount w)); cbn; lia
        | assumption | assumption
        | rewrite app_nil_r; assumption
        | rewrite app_nil_r, (tally_insert _ _ _ _ Hi); cbn; lia ].
  - destruct (Chan.try_send (workerDoneChan s) true) as [c|] eqn:Hsend; [|assumption].
    apply try_send_Some in Hsend as (Hb & Hc & Hroom).
    constructor; cbn;
      [ assumption | congruence | (erewrite args_insert; [exact Hargs|exact Hi|reflexivity|reflexivity])
      | rewrite Hb, length_app, (returned_count_insert _ _ _ _ Hi), Hst; cbn;
        repeat case_decide; try discriminate; try congruence; lia
      | assumption | assumption
      | apply Forall_insert; [assumption|]; split; [exact Hmax|]; cbn; exact Hw
      | assumption | assumption | assumption
      | rewrite (tally_insert _ _ _ _ Hi); cbn; lia ].
  - assumption.
Qed.

Lemma tick_step_invariant s : invariant s -> invariant (tick_step s).
Proof.
  intros [Hstock Hcap Hargs Hdone Hfin Hm Hws Hsym Hheld Hicons Hout].
  constructor; cbn; try assumption. by left.
Qed.

Lemma collect_step_invariant s :
  main_status s = waiting -> invariant s -> invariant (collect_step s).
Proof.
  intros Hmain Hinv.
  pose proof Hinv as [Hstock Hcap Hargs Hdone Hfin Hm Hws Hsym Hheld Hicons Hout].
  rewrite Hmain in Hm. unfold collect_step.
  destruct (Chan.try_recv (workerDoneChan s)) as [[v c]|] eqn:Hrecv; [|assumption].
  apply try_recv_Some in Hrecv as (Hb & Hc).
  rewrite GoroutinesFacts.incr_small by lia.
  rewrite Hb in Hdone. cbn [length] in Hdone.
  constructor; cbn;
    [ assumption | congruence | assumption | lia | lia
    | destruct (Z.eqb_spec (finishedWorkers s + 1) Goroutines.workers);
      [right; auto|lia]
    | assumption | assumption | assumption | assumption | assumption ].
Qed.

Lemma step_invariant s a : invariant s -> invariant (step s a).
Proof.
  intros Hinv. unfold step.
  destruct (main_status s) eqn:Hmain; [|assumption..].
  destruct a.
  - by apply spam_step_invariant.
  - by apply work_step_invariant.
  - by apply tick_step_invariant.
  - by apply collect_step_invariant.
Qed.

Lemma run_invariant schedule : forall s, invariant s -> invariant (run schedule s).
Proof.
  induction schedule as [|a schedule IH]; intros s Hinv; [exact Hinv|].
  apply IH, step_invariant, Hinv.
Qed.

Lemma reachable_invariant cap schedule :
  0 <= cap < GoInt.MaxInt -> invariant (run schedule (start cap)).
Proof. intros Hcap. apply run_invariant, start_invariant, Hcap. Qed.

(** What no step changes: the capacity of the stock channel and the cap
    of each worker. *)
Lemma cap_insert (l : list worker) i w w' :
  l !! i = Some w -> maxEmojis w' = maxEmojis w ->
  map maxEmojis (<[i := w']> l) = map maxEmojis l.
Proof.
  intros Hl Hm. change (@map) with (@fmap list _) in *.
  rewrite list_fmap_insert, Hm.
  apply list_insert_id. rewrite list_lookup_fmap, Hl. reflexivity.
Qed.

Lemma step_static s a :
  Chan.capacity (stockTickerChan (step s a)) = Chan.capacity (stockTickerChan s) /\
  map maxEmojis (ws (step s a)) = map maxEmojis (ws s).
Proof.
  unfold step. destruct (main_status s); [|auto..].
  destruct a as [j raw|i| |].
  - unfold spam_step. destruct (spammers s !! j) as [held|]; [|auto].
    destruct (match held with Some sym => Some sym | None => draw raw end) as [sym|];
      [|auto].
    destruct (Chan.try_send (stockTickerChan s) sym) as [c|] eqn:Hsend; [|auto].
    apply try_send_Some in Hsend as (_ & Hc & _). cbn. auto.
  - unfold work_step. destruct (ws s !! i) as [w|] eqn:Hi; [|auto].
    destruct (status w).
    + destruct (Chan.try_recv (stockTickerChan s)) as [[sym c]|] eqn:Hrecv; [|auto].
      apply try_recv_Some in Hrecv as (_ & Hc).
      destruct (String.eqb sym (ticker w)); cbn;
        (split; [exact Hc|]); (erewrite cap_insert; [reflexivity|exact Hi|reflexivity]).
    + destruct (Chan.try_send (workerDoneChan s) true) as [c|]; [|auto].
      cbn. split; [reflexivity|].
      erewrite cap_insert; [reflexivity|exact Hi|reflexivity].
    + auto.
  - cbn. auto.
  - unfold collect_step.
    destruct (Chan.try_recv (workerDoneChan s)) as [[v c]|]; cbn; auto.
Qed.

Lemma run_static schedule : forall s,
  Chan.capacity (stockTickerChan (run schedule s)) = Chan.capacity (stockTickerChan s) /\
  map maxEmojis (ws (run schedule s)) = map maxEmojis (ws s).
Proof.
  induction schedule as [|a schedule IH]; intros s; [auto|].
  cbn [run foldl]. destruct (IH (step s a)) as [Hc Hm].
  destruct (step_static s a) as [Hc' Hm'].
  unfold run in *. split; congruence.
Qed.

Lemma reachable_caps cap schedule :
  Forall (fun w => maxEmojis w = cap) (ws (run schedule (start cap))).
Proof.
  destruct (run_static schedule (start cap)) as [_ Hm].
  apply Forall_forall. intros w Hw.
  assert (Hin : maxEmojis w ∈ map maxEmojis (ws (run schedule (start cap)))).
  { apply list_elem_of_fmap. eauto. }
  rewrite Hm in Hin. cbn in Hin.
  repeat (apply elem_of_cons in Hin as [Hin|Hin]; [exact Hin|]).
  inversion Hin.
Qed.

Lemma returned_count_full l :
  returned_count l = Z.of_nat (length l) -> Forall (fun w => status w = returned) l.
Proof.
  unfold returned_count. induction l as [|x l IH]; [constructor|].
  rewrite filter_cons. pose proof (length_filter (fun w => status w = returned) l).
  destruct (decide (status x = returned)); cbn [length]; intros Hlen.
  - constructor; [assumption|]. apply IH. lia.
  - lia.
Qed.

Lemma returned_count_room (l : list worker) i w :
  l !! i = Some w -> status w <> returned ->
  returned_count l < Z.of_nat (length l).
Proof.
  intros Hl Hst.
  pose proof (returned_count_insert l i w
                (Worker (ticker w) (icon w) (maxEmojis w) (emojiCount w) returned) Hl)
    as Hins.
  pose proof (returned_count_bound
                (<[i := Worker (ticker w) (icon w) (maxEmojis w) (emojiCount w) returned]> l))
    as Hb.
  rewrite length_insert in Hb. cbn [status] in Hins.
  repeat case_decide; try contradiction; try congruence; lia.
Qed.

Lemma workers_length s : invariant s -> length (ws s) = 4%nat.
Proof.
  intros Hinv. rewrite <- (length_map (fun w => (ticker w, icon w))).
  rewrite (inv_args s Hinv). reflexivity.
Qed.

(** A schedule on which the pipeline with cap 0 runs to the end: each
    symbol is drawn once, each worker reads its own and signals, and
    [main] collects the four signals. *)
Lemma pipeline_can_finish :
  main_status
    (run [spam 0 0; spam 1 1; spam 0 2; spam 1 3;
          work 0; work 1; work 2; work 3;
          work 0; work 1; work 2; work 3;
          collect; collect; collect; collect] (start 0))
  = exited Goroutines.all_done_message.
Proof. reflexivity. Qed.

(** X2: a worker that has left its loop never waits at [doneChan <- true]:
    in every reachable state the done channel has room for it, so its next
    step (while [main] is still running) completes the send and the worker
    returns. *)
Theorem worker_never_waits_on_done
    (cap : Z) (schedule : list action) (i : nat) (w : worker) :
  0 <= cap < GoInt.MaxInt ->
  ws (run schedule (start cap)) !! i = Some w ->
  status w = signalling ->
  Chan.full (workerDoneChan (run schedule (start cap))) = false /\
  (main_status (run schedule (start cap)) = waiting ->
   status <$> ws (step (run schedule (start cap)) (work i)) !! i = Some returned).
Proof.
  intros Hcap Hi Hst. pose proof (reachable_invariant cap schedule Hcap) as Hinv.
  set (s := run schedule (start cap)) in *.
  assert (Hroom : Chan.full (workerDoneChan s) = false).
  { unfold Chan.full. rewrite (inv_done_capacity _ Hinv).
    pose proof (inv_done _ Hinv). pose proof (inv_finished _ Hinv).
    assert (Hne : status w <> returned) by (rewrite Hst; discriminate).
    pose proof (returned_count_room _ _ _ Hi Hne) as Hb.
    rewrite (workers_length _ Hinv) in Hb.
    apply Nat.leb_gt. lia. }
  split; [exact Hroom|].
  intros Hmain. unfold step. rewrite Hmain. unfold work_step.
  rewrite Hi, Hst. unfold Chan.try_send. rewrite Hroom. cbn [ws].
  rewrite list_lookup_insert_eq; [reflexivity|].
  eapply lookup_lt_Some, Hi.
Qed.

Lemma worker_never_waits_on_done_cap0 :
  Chan.full (workerDoneChan (run [spam 0 0; work 0] (start 0))) = false /\
  (main_status (run [spam 0 0; work 0] (start 0)) = waiting ->
   status <$> ws (step (run [spam 0 0; work 0] (start 0)) (work 0)) !! 0%nat
   = Some returned).
Proof.
  apply (worker_never_waits_on_done 0 [spam 0 0; work 0] 0
           (Worker "AAPL" (hd ("", "") Goroutines.worker_args).2 0 1 signalling)).
  - vm_compute. split; [discriminate|reflexivity].
  - reflexivity.
  - reflexivity.
Defined.

(** X3: [main] leaves with "heard from all the workers" only when all
    four workers have returned, each with a tally one above the cap, and
    the icons printed by then number four times that tally. *)
Theorem all_done_means_all_returned (cap : Z) (schedule : list action) :
  0 <= cap < GoInt.MaxInt ->
  main_status (run schedule (start cap)) = exited Goroutines.all_done_message ->
  finishedWorkers (run schedule (start cap)) = 4 /\
  Forall (fun w => status w = returned /\ emojiCount w = cap + 1)
         (ws (run schedule (start cap))) /\
  Z.of_nat (length (stdout (run schedule (start cap)))) = 4 * (cap + 1).
Proof.
  intros Hcap Hmain. pose proof (reachable_invariant cap schedule Hcap) as Hinv.
  pose proof (reachable_caps cap schedule) as Hcaps.
  set (s := run schedule (start cap)) in *.
  pose proof (inv_main _ Hinv) as Hm. rewrite Hmain in Hm.
  destruct Hm as [Habs|[_ Hfin]]; [discriminate Habs|].
  pose proof (inv_done _ Hinv) as Hdone.
  pose proof (returned_count_bound (ws s)) as Hb.
  pose proof (workers_length _ Hinv) as Hlen. rewrite Hlen in Hb.
  assert (Hall : Forall (fun w => status w = returned) (ws s)).
  { apply returned_count_full. rewrite Hlen.
    unfold Goroutines.workers in Hfin. lia. }
  assert (Hboth : Forall (fun w => status w = returned /\ emojiCount w = cap + 1) (ws s)).
  { pose proof (inv_workers _ Hinv) as Hws.
    apply Forall_forall. intros w Hw.
    rewrite Forall_forall in Hall, Hws, Hcaps.
    specialize (Hall w Hw). destruct (Hws w Hw) as [_ Hok].
    rewrite Hall in Hok. rewrite (Hcaps w Hw) in Hok. auto. }
  split; [exact Hfin|]. split; [exact Hboth|].
  rewrite (inv_stdout _ Hinv).
  destruct (ws s) as [|w0 [|w1 [|w2 [|w3 [|w4 l]]]]]; try discriminate Hlen.
  repeat match goal with
         | H : Forall _ (_ :: _) |- _ => apply Forall_cons in H as [[_ ?] H]
         end.
  cbn. lia.
Qed.

Lemma all_done_means_all_returned_cap0 :
  finishedWorkers
    (run [spam 0 0; spam 1 1; spam 0 2; spam 1 3;
          work 0; work 1; work 2; work 3;
          work 0; work 1; work 2; work 3;
          collect; collect; collect; collect] (start 0)) = 4 /\
  Z.of_nat (length (stdout
    (run [spam 0 0; spam 1 1; spam 0 2; spam 1 3;
          work 0; work 1; work 2; work 3;
          work 0; work 1; work 2; work 3;
          collect; collect; collect; collect] (start 0)))) = 4 * (0 + 1).
Proof.
  destruct (all_done_means_all_returned 0
    [spam 0 0; spam 1 1; spam 0 2; spam 1 3;
     work 0; work 1; work 2; work 3;
     work 0; work 1; work 2; work 3;
     collect; collect; collect; collect]) as (Hfin & _ & Hout).
  - vm_compute. split; [discriminate|reflexivity].
  - reflexivity.
  - split; assumption.
Defined.

(** X4: in every reachable state of the pipeline, every value waiting in
    the stock channel, or held by a spammer that waits to send, is one of
    the four symbols, and no goroutine has panicked. *)
Theorem stock_channel_holds_known_symbols (cap : Z) (schedule : list action) :
  0 <= cap < GoInt.MaxInt ->
  Forall (fun sym => sym ∈ Goroutines.stockSymbols)
         (Chan.buffer (stockTickerChan (run schedule (start cap)))) /\
  Forall (fun held => forall sym, held = Some sym -> sym ∈ Goroutines.stockSymbols)
         (spammers (run schedule (start cap))) /\
  main_status (run schedule (start cap)) <> crashed.
Proof.
  intros Hcap. pose proof (reachable_invariant cap schedule Hcap) as Hinv.
  split; [exact (inv_symbols _ Hinv)|]. split; [exact (inv_held _ Hinv)|].
  pose proof (inv_main _ Hinv) as Hm. intros Hc. rewrite Hc in Hm. exact Hm.
Qed.

Lemma stock_channel_holds_known_symbols_main :
  Forall (fun sym => sym ∈ Goroutines.stockSymbols)
         (Chan.buffer (stockTickerChan (run [spam 0 7; spam 1 2] init))) /\
  main_status (run [spam 0 7; spam 1 2] init) <> crashed.
Proof.
  destruct (stock_channel_holds_known_symbols Goroutines.maxEmojis [spam 0 7; spam 1 2])
    as (Hsym & _ & Hmain).
  - vm_compute. split; [discriminate|reflexivity].
  - split; assumption.
Defined.



End PipelineFacts.

(** ** The range loop over a map *)

Module BasicsMapFacts.
Import Basics BasicsFacts.

Lemma filter_all {A} (P : A -> Prop) `{forall x, Decision (P x)} (l : list A) :
  Forall P l -> filter P l = l.
Proof.
  induction 1 as [|x l Hx _ IH]; [reflexivity|].
  rewrite filter_cons, decide_True by exact Hx. rewrite IH. reflexivity.
Qed.

(** X8: the range loop that deletes each key it visits is safe on every
    map and in every order the runtime may choose: whatever the order in
    which the keys have their turn, every entry is visited, one line is
    printed for each, in that order, with the key and the value the entry
    had, and the map is empty when the loop ends. *)
Theorem range_delete_empties
    (order : list string) (out : list string) (nameToAge : list (string * Z)) :
  NoDup (keys nameToAge) ->
  order ≡ₚ keys nameToAge ->
  (range_delete order out nameToAge).2 = [] /\
  (range_delete order out nameToAge).1
    = out ++ map (fun k => range_line k (mapaccess2 nameToAge k).1) order /\
  length (range_delete order out nameToAge).1
    = (length out + length nameToAge)%nat.
Proof.
  revert out nameToAge.
  induction order as [|k order IH]; intros out m Hnd Hperm.
  - apply Permutation_nil_l in Hperm. unfold keys in Hperm. symmetry in Hperm.
    apply fmap_nil_inv in Hperm as ->. cbn. rewrite app_nil_r. auto.
  - cbn [range_delete].
    assert (Hk : k ∈ keys m) by (rewrite <- Hperm; left).
    pose proof (mapaccess2_flag m k) as Hflag.
    rewrite bool_decide_eq_true_2 in Hflag by exact Hk.
    destruct (mapaccess2 m k) as [v flag] eqn:Hacc. cbn [snd] in Hflag. subst flag.
    assert (Hnd' : NoDup (k :: order)) by (rewrite Hperm; exact Hnd).
    apply NoDup_cons in Hnd' as [Hfresh Hnd'].
    assert (Horder : Forall (fun k' => k' <> k) order).
    { apply Forall_forall. intros k' Hk' ->. contradiction. }
    destruct (IH (out ++ [range_line k v]) (map_delete m k)) as (Hend & Hout & Hlen).
    { apply NoDup_map_delete, Hnd. }
    { rewrite keys_map_delete, <- Hperm, filter_cons.
      rewrite decide_False by (intros Hc; apply Hc; reflexivity).
      rewrite filter_all by exact Horder. reflexivity. }
    split; [exact Hend|]. split.
    + rewrite Hout, <- app_assoc. cbn [map app]. rewrite Hacc. cbn [fst].
      do 2 f_equal. apply map_ext_in. intros k' Hk'. apply list_elem_of_In in Hk'.
      rewrite mapaccess2_map_delete_ne; [reflexivity|].
      exact (proj1 (Forall_forall _ _) Horder k' Hk').
    + rewrite Hlen, length_app. cbn [length].
      assert (Hm : length m = S (length order)).
      { apply Permutation_length in Hperm. unfold keys in Hperm.
        rewrite length_fmap in Hperm. cbn in Hperm. lia. }
      assert (Hd : length (map_delete m k) = length order).
      { rewrite <- (length_fmap fst (map_delete m k)).
        change (fst <$> map_delete m k) with (keys (map_delete m k)).
        rewrite keys_map_delete, <- Hperm, filter_cons.
        rewrite decide_False by (intros Hc; apply Hc; reflexivity).
        rewrite filter_all by exact Horder. reflexivity. }
      lia.
Qed.

Lemma range_delete_empties_two_orders :
  (range_delete ["Alice"; "Bob"] [] [("Bob", 42); ("Alice", 33)]).2 = [] /\
  (range_delete ["Alice"; "Bob"] [] [("Bob", 42); ("Alice", 33)]).1
    = [range_line "Alice" 33; range_line "Bob" 42].
Proof.
  destruct (range_delete_empties ["Alice"; "Bob"] [] [("Bob", 42); ("Alice", 33)])
    as (Hend & Hout & _).
  - apply NoDup_cons. split; [|apply NoDup_singleton].
    intros Hin. apply list_elem_of_singleton in Hin. discriminate Hin.
  - apply Permutation_swap.
  - split; [exact Hend|]. rewrite Hout. reflexivity.
Defined.

End BasicsMapFacts.

(** ** More on the message loop *)

Module MessageLoopFacts.
Import Goroutines GoroutinesRounds.




End MessageLoopFacts.

(** ** The select example of the first script *)

Module SelectExampleFacts.
Import Basics.

(** What holds of the channel and the output of the example at any time. *)
Lemma reader_step_keeps (st : Chan.t string * list string) cap out :
  (length (Chan.buffer st.1) <= cap)%nat /\ Chan.capacity st.1 = cap /\
  Forall (fun v => v = "foo") (Chan.buffer st.1) /\
  (exists printed, st.2 = out ++ printed /\
     Forall (fun line => line ∈ ["foo" +:+ Runtime.newline;
                                 "sent a message" +:+ Runtime.newline;
                                 "channel is full!" +:+ Runtime.newline]) printed) ->
  (length (Chan.buffer (reader_step st).1) <= cap)%nat /\
  Chan.capacity (reader_step st).1 = cap /\
  Forall (fun v => v = "foo") (Chan.buffer (reader_step st).1) /\
  (exists printed, (reader_step st).2 = out ++ printed /\
     Forall (fun line => line ∈ ["foo" +:+ Runtime.newline;
                                 "sent a message" +:+ Runtime.newline;
                                 "channel is full!" +:+ Runtime.newline]) printed).
Proof.
  intros (Hlen & Hcap & Hfoo & printed & Hout & Hlines).
  unfold reader_step, Chan.try_recv.
  destruct (Chan.buffer st.1) as [|v rest] eqn:Hb; cbn [fst snd].
  - rewrite Hb. eauto 10.
  - cbn [Chan.buffer Chan.capacity length] in *.
    apply Forall_cons in Hfoo as [-> Hfoo].
    split; [lia|]. split; [exact Hcap|]. split; [exact Hfoo|].
    exists (printed ++ ["foo" +:+ Runtime.newline]).
    rewrite Hout, <- app_assoc. split; [reflexivity|].
    apply Forall_app. split; [exact Hlines|]. repeat constructor.
Qed.

(** X11: the endless sender of the select example never overfills its
    channel: for any number of rounds and anything the reader does in
    between, the channel stays within its capacity and holds nothing but
    "foo", the sender prints a line in every round, and every line printed
    is "foo", "sent a message" or "channel is full!". *)
Theorem sender_loop_never_overfills
    (sched : list nat) (st : Chan.t string * list string) :
  (length (Chan.buffer st.1) <= Chan.capacity st.1)%nat ->
  Forall (fun v => v = "foo") (Chan.buffer st.1) ->
  (length (Chan.buffer (sender_loop sched st).1) <= Chan.capacity st.1)%nat /\
  Chan.capacity (sender_loop sched st).1 = Chan.capacity st.1 /\
  Forall (fun v => v = "foo") (Chan.buffer (sender_loop sched st).1) /\
  exists printed,
    (sender_loop sched st).2 = st.2 ++ printed /\
    (length sched <= length printed)%nat /\
    Forall (fun line => line ∈ ["foo" +:+ Runtime.newline;
                                "sent a message" +:+ Runtime.newline;
                                "channel is full!" +:+ Runtime.newline]) printed.
Proof.
  revert st. induction sched as [|reads sched IH]; intros st Hlen Hfoo.
  - cbn. repeat split; try assumption. exists []. rewrite app_nil_r.
    repeat split; constructor.
  - cbn [sender_loop].
    assert (Hread :
      (length (Chan.buffer (Nat.iter reads reader_step st).1) <= Chan.capacity st.1)%nat /\
      Chan.capacity (Nat.iter reads reader_step st).1 = Chan.capacity st.1 /\
      Forall (fun v => v = "foo") (Chan.buffer (Nat.iter reads reader_step st).1) /\
      (exists printed, (Nat.iter reads reader_step st).2 = st.2 ++ printed /\
         Forall (fun line => line ∈ ["foo" +:+ Runtime.newline;
                                     "sent a message" +:+ Runtime.newline;
                                     "channel is full!" +:+ Runtime.newline]) printed)).
    { induction reads as [|reads IHr].
      - cbn. repeat split; try assumption. exists []. rewrite app_nil_r.
        split; constructor.
      - change (Nat.iter (S reads) reader_step st)
          with (reader_step (Nat.iter reads reader_step st)).
        apply reader_step_keeps, IHr. }
    destruct Hread as (Hlen0 & Hcap0 & Hfoo0 & printed0 & Hout0 & Hlines0).
    set (st0 := Nat.iter reads reader_step st) in *.
    assert (Hsend :
      (length (Chan.buffer (sender_step st0).1) <= Chan.capacity st.1)%nat /\
      Chan.capacity (sender_step st0).1 = Chan.capacity st.1 /\
      Forall (fun v => v = "foo") (Chan.buffer (sender_step st0).1) /\
      exists line, (sender_step st0).2 = st0.2 ++ [line] /\
        line ∈ ["foo" +:+ Runtime.newline; "sent a message" +:+ Runtime.newline;
                "channel is full!" +:+ Runtime.newline]).
    { unfold sender_step, Chan.try_send, Chan.full.
      destruct (Nat.leb_spec (Chan.capacity st0.1) (length (Chan.buffer st0.1)));
        cbn [fst snd Chan.buffer Chan.capacity].
      - repeat split; try assumption. eexists. split; [reflexivity|].
        do 2 right. left.
      - rewrite length_app. cbn [length]. split; [lia|]. split; [exact Hcap0|].
        split; [apply Forall_app; split; [exact Hfoo0|repeat constructor]|].
        eexists. split; [reflexivity|]. right. left. }
    destruct Hsend as (Hlen1 & Hcap1 & Hfoo1 & line & Hout1 & Hline).
    destruct (IH (sender_step st0)) as (Hlen2 & Hcap2 & Hfoo2 & printed2 & Hout2 & Hn & Hlines2).
    { rewrite Hcap1. exact Hlen1. }
    { exact Hfoo1. }
    rewrite Hcap1 in Hlen2, Hcap2.
    split; [exact Hlen2|]. split; [exact Hcap2|]. split; [exact Hfoo2|].
    exists (printed0 ++ line :: printed2).
    split; [rewrite Hout2, Hout1, Hout0, <- !app_assoc; reflexivity|].
    split; [rewrite length_app; cbn [length]; lia|].
    apply Forall_app. split; [exact Hlines0|]. constructor; assumption.
Qed.

Lemma sender_loop_never_overfills_messageChannel :
  (length (Chan.buffer (sender_loop [0; 2; 0]%nat (messageChannel, [])).1) <= 1024)%nat.
Proof.
  apply (sender_loop_never_overfills [0; 2; 0]%nat (messageChannel, [])).
  - cbn. lia.
  - constructor.
Defined.

End SelectExampleFacts.

(** ** More on the workers and on the end of [main] *)

Module WorkerFacts.
Import Goroutines.

Lemma range_waits_only_on_open_empty ticker icon maxEmojis closed stockChan :
  forall emojiCount printed,
    finished (range_stockChan ticker icon maxEmojis closed emojiCount printed stockChan)
      = false ->
    closed = false /\
    unread (range_stockChan ticker icon maxEmojis closed emojiCount printed stockChan) = [].
Proof.
  induction stockChan as [|s stockChan IH]; intros c p; cbn [range_stockChan].
  - destruct closed; cbn; [discriminate|auto].
  - destruct (String.eqb s ticker);
      match goal with |- context [?a <? ?b] => destruct (a <? b) end;
      solve [cbn; discriminate | apply IH].
Qed.

Lemma range_consumes ticker icon maxEmojis closed stockChan :
  forall emojiCount printed,
    GoInt.MinInt <= emojiCount <= maxEmojis -> maxEmojis < GoInt.MaxInt ->
    exists consumed,
      stockChan = consumed ++
        unread (range_stockChan ticker icon maxEmojis closed emojiCount printed stockChan) /\
      Goroutines.emojiCount
        (range_stockChan ticker icon maxEmojis closed emojiCount printed stockChan)
      = emojiCount + matching ticker consumed.
Proof.
  induction stockChan as [|s stockChan IH]; intros c p Hc Hmax; cbn [range_stockChan].
  - exists []. destruct closed; cbn; split; (reflexivity || lia).
  - destruct (String.eqb s ticker) eqn:Hs.
    + rewrite GoIntFacts.incr_below_max by lia.
      destruct (Z.ltb_spec maxEmojis (c + 1)).
      * exists [s]. cbn. rewrite Hs. split; [reflexivity|lia].
      * destruct (IH (c + 1) (p ++ [icon])) as (consumed & Hl & Hcount); [lia|lia|].
        exists (s :: consumed). cbn [app matching]. rewrite Hs.
        split; [f_equal; exact Hl|lia].
    + destruct (Z.ltb_spec maxEmojis c); [lia|].
      destruct (IH c p) as (consumed & Hl & Hcount); [lia|lia|].
      exists (s :: consumed). cbn [app matching]. rewrite Hs.
      split; [f_equal; exact Hl|lia].
Qed.

(** X12: a worker puts [true] in the done channel exactly once when it
    returns and not at all while it waits; and it only ever waits on a
    channel that is open and that it has emptied. *)
Theorem worker_signals_once_it_returns
    (stockChan : list string) (closed : bool) (ticker icon : string) (maxEmojis : Z) :
  done_sent (stockEmojiWorker stockChan closed ticker icon maxEmojis)
    = (if finished (stockEmojiWorker stockChan closed ticker icon maxEmojis)
       then [true] else []) /\
  (finished (stockEmojiWorker stockChan closed ticker icon maxEmojis) = false ->
   closed = false /\
   unread (stockEmojiWorker stockChan closed ticker icon maxEmojis) = []).
Proof.
  unfold stockEmojiWorker. split.
  - apply GoroutinesFacts.worker_done_once.
  - apply range_waits_only_on_open_empty.
Qed.

Lemma worker_signals_once_it_returns_waiting :
  false = false /\
  unread (stockEmojiWorker ["GOOG"; "AAPL"] false "AAPL" "*" 5) = [].
Proof.
  apply (proj2 (worker_signals_once_it_returns ["GOOG"; "AAPL"] false "AAPL" "*" 5)).
  reflexivity.
Defined.

(** X13: for a cap from 0 up to but not including the largest [int], a
    worker ends with a tally that is the number of its own symbols among
    those it was handed, capped at one above [maxEmojis]; it has printed
    its icon that many times and nothing else; and it returns exactly when
    the channel is closed or it was handed more than [maxEmojis] of its
    symbols. *)
Theorem worker_tally_capped_one_above
    (stockChan : list string) (closed : bool) (ticker icon : string) (maxEmojis : Z) :
  0 <= maxEmojis < GoInt.MaxInt ->
  emojiCount (stockEmojiWorker stockChan closed ticker icon maxEmojis)
    = Z.min (matching ticker stockChan) (maxEmojis + 1) /\
  printed (stockEmojiWorker stockChan closed ticker icon maxEmojis)
    = replicate (Z.to_nat (Z.min (matching ticker stockChan) (maxEmojis + 1))) icon /\
  finished (stockEmojiWorker stockChan closed ticker icon maxEmojis)
    = closed || (maxEmojis <? matching ticker stockChan).
Proof.
  intros Hmax. unfold stockEmojiWorker.
  assert (Hc : GoInt.MinInt <= 0 <= maxEmojis)
    by (unfold GoInt.MinInt, GoInt.intSize; lia).
  destruct (GoroutinesFacts.worker_tally ticker icon maxEmojis closed stockChan 0 []
              Hc (proj2 Hmax)) as [Hcount Hprinted].
  rewrite Hcount, Hprinted, GoroutinesFacts.worker_finished by (assumption || lia).
  rewrite Z.add_0_l, Z.sub_0_r. auto.
Qed.

Lemma worker_tally_capped_one_above_script :
  emojiCount (stockEmojiWorker ["AAPL"; "FB"; "AAPL"] false "AAPL" "*"
                               Goroutines.maxEmojis) = 2.
Proof.
  rewrite (proj1 (worker_tally_capped_one_above ["AAPL"; "FB"; "AAPL"] false "AAPL" "*"
                    Goroutines.maxEmojis ltac:(vm_compute; split; [discriminate|reflexivity]))).
  reflexivity.
Defined.

(** X14: a worker takes every symbol it reads off the channel for good,
    its own or not: what it was handed is what it consumed followed by
    what it left unread, and its tally is the number of its own symbols
    among those it consumed (for a cap from 0 up to but not including the
    largest [int]). *)
Theorem worker_consumes_what_it_reads
    (stockChan : list string) (closed : bool) (ticker icon : string) (maxEmojis : Z) :
  0 <= maxEmojis < GoInt.MaxInt ->
  exists consumed,
    stockChan = consumed ++ unread (stockEmojiWorker stockChan closed ticker icon maxEmojis) /\
    emojiCount (stockEmojiWorker stockChan closed ticker icon maxEmojis)
      = matching ticker consumed.
Proof.
  intros Hmax. unfold stockEmojiWorker.
  destruct (range_consumes ticker icon maxEmojis closed stockChan 0 [])
    as (consumed & Hl & Hcount).
  - unfold GoInt.MinInt, GoInt.intSize. lia.
  - lia.
  - exists consumed. rewrite Z.add_0_l in Hcount. auto.
Qed.

Lemma worker_consumes_what_it_reads_other_symbols :
  exists consumed,
    ["GOOG"; "FB"; "AAPL"; "GOOG"] =
      consumed ++ unread (stockEmojiWorker ["GOOG"; "FB"; "AAPL"; "GOOG"] false
                                           "AAPL" "*" 0) /\
    emojiCount (stockEmojiWorker ["GOOG"; "FB"; "AAPL"; "GOOG"] false "AAPL" "*" 0)
      = matching "AAPL" consumed.
Proof.
  apply (worker_consumes_what_it_reads ["GOOG"; "FB"; "AAPL"; "GOOG"] false "AAPL" "*" 0).
  vm_compute. split; [discriminate|reflexivity].
Defined.

(** X15: with a cap below zero a worker still reads one symbol: it takes
    the first symbol off the channel, prints its icon if the symbol is its
    own, and returns, leaving the rest unread. *)
Theorem worker_with_negative_cap_reads_one
    (stockSymbol : string) (stockChan : list string) (closed : bool)
    (ticker icon : string) (maxEmojis : Z) :
  maxEmojis < 0 ->
  stockEmojiWorker (stockSymbol :: stockChan) closed ticker icon maxEmojis
  = if String.eqb stockSymbol ticker
    then WorkerEnd 1 [icon] stockChan [true] true
    else WorkerEnd 0 [] stockChan [true] true.
Proof.
  intros Hneg. unfold stockEmojiWorker. cbn [range_stockChan].
  destruct (String.eqb stockSymbol ticker).
  - change (GoInt.incr 0) with 1.
    destruct (Z.ltb_spec maxEmojis 1); [reflexivity|lia].
  - destruct (Z.ltb_spec maxEmojis 0); [reflexivity|lia].
Qed.

Lemma worker_with_negative_cap_reads_one_run :
  stockEmojiWorker ["FB"; "AAPL"] false "AAPL" "*" (-1)
  = WorkerEnd 0 [] ["AAPL"] [true] true.
Proof.
  apply (worker_with_negative_cap_reads_one "FB" ["AAPL"] false "AAPL" "*" (-1)).
  reflexivity.
Defined.

End WorkerFacts.

Module WaitLoopFacts.
Import Runtime RuntimeFacts Goroutines GoroutinesExit.

(** X17: the exit message is never printed.  Whenever the waiting loop
    returns, with either message, [main] ends normally having printed one
    empty line, the argument the deferred [fmt.Println] was given when it
    was deferred, and then stopped the ticker; the message is only left in
    the variable.  While the loop waits, [main] does not end. *)
Theorem exit_message_is_never_printed
    (events : list event) (m : machine string Empty_set) :
  match main_wait 0 events with
  | Waiting _ => main_exit events m = None
  | Returned exitMessage _ =>
      main_exit events m =
      Some (Done tt (Machine (<["exitMessage" := exitMessage]>
                                (<["exitMessage" := ""]> (vars m)))
                             (heap m)
                             (trace m ++ [Stdout newline; Extern "ticker.Stop"])))
  end.
Proof.
  unfold main_exit. destruct (main_wait 0 events) as [c|exitMessage rest];
    [reflexivity|].
  f_equal. unfold main_returning, defer, bind, setvar, getvar, fmt_Println, emit.
  cbn [vars heap trace]. rewrite lookup_insert_eq. cbn [vars heap trace].
  rewrite <- app_assoc. reflexivity.
Qed.

End WaitLoopFacts.

(** ** Waiting for a goroutine *)

Module HandoffFacts.
Import Handoff.

(** The four states the two goroutines can be in together. *)
Lemma run_states (schedule : list bool) :
  run schedule start ∈
    [ start;
      State (Chan.make bool 1) at_send at_receive [concurrent_line];
      State (Chan.Make 1 [true]) sender_done at_receive [concurrent_line];
      State (Chan.make bool 1) sender_done gone_on [concurrent_line; finished_line] ].
Proof.
  unfold run. rewrite <- (rev_involutive schedule).
  induction (rev schedule) as [|pick l IH]; cbn [rev].
  - left.
  - rewrite foldl_app. cbn [foldl].
    repeat (apply elem_of_cons in IH as [->|IH];
            [destruct pick; vm_compute; set_solver|]).
    inversion IH.
Qed.

(** X18: however the goroutine and [main] are scheduled, [main] goes on
    only after the goroutine has printed its line and sent its value: the
    output is always the start of the two lines in that order, and once
    [main] has gone on both lines are there and the channel is empty. *)
Theorem main_waits_for_the_goroutine (schedule : list bool) :
  stdout (run schedule start) `prefix_of` [concurrent_line; finished_line] /\
  (receiver (run schedule start) = gone_on ->
   stdout (run schedule start) = [concurrent_line; finished_line] /\
   sender (run schedule start) = sender_done /\
   Chan.buffer (boolChannel (run schedule start)) = []).
Proof.
  pose proof (run_states schedule) as Hin.
  repeat (apply elem_of_cons in Hin as [->|Hin]).
  - split; [by eexists|discriminate].
  - split; [by eexists|discriminate].
  - split; [by eexists|discriminate].
  - split; [by eexists|auto].
  - inversion Hin.
Qed.

Lemma main_waits_for_the_goroutine_eager_main :
  stdout (run [false; false; true; false; true; false] start)
  = [concurrent_line; finished_line].
Proof.
  apply (proj2 (main_waits_for_the_goroutine [false; false; true; false; true; false])).
  reflexivity.
Defined.

End HandoffFacts.

(** ** The whole of the structs and interfaces script *)

Module StructsMainFacts.
Import Runtime RuntimeFacts.

Lemma call_SenderA_Send_run x s message (m : machine SenderA.t SenderB.t) :
  vars m !! x = Some s ->
  Structs.call_SenderA_Send x message m =
  Done tt (Machine (vars m) (heap m)
     (trace m ++ [Stdout (Send_line (GoInt.incr (SenderA.MessageCount s))
                                    (SenderA.FirstName s) message)])).
Proof.
  intros Hx. unfold Structs.call_SenderA_Send.
  rewrite (bind_Done _ _ _ _ _ (getvar_Some _ _ _ Hx)).
  apply SenderFacts.Structs_SenderA_Send_run.
Qed.

Lemma runSenders_run (m : machine SenderA.t SenderB.t) a name c :
  vars m !! "senderA" = Some a ->
  heap m !! senderB_loc = Some (SenderB.Build name c) ->
  GoInt.MinInt <= c -> c + 3 <= GoInt.MaxInt ->
  Structs.runSenders m =
  Done tt (Machine (vars m)
    (<[senderB_loc := SenderB.Build name (c + 3)]> (heap m))
    (trace m ++
     map Stdout
       [Send_line (GoInt.incr (SenderA.MessageCount a)) (SenderA.FirstName a) "message one";
        Send_line (GoInt.incr (SenderA.MessageCount a)) (SenderA.FirstName a) "message two";
        Send_line (GoInt.incr (SenderA.MessageCount a)) (SenderA.FirstName a) "message three";
        Send_line (c + 1) name "message one";
        Send_line (c + 2) name "message two";
        Send_line (c + 3) name "message three"])).
Proof.
  intros Ha Hb Hlo Hhi. unfold Structs.runSenders.
  do 3 (erewrite bind_Done; [|apply call_SenderA_Send_run; exact Ha];
        cbn [vars heap trace]).
  erewrite bind_Done; [|apply SenderFacts.SenderB_Send_run; exact Hb].
  cbn [vars heap trace SenderB.FirstName SenderB.MessageCount].
  erewrite bind_Done;
    [|apply SenderFacts.SenderB_Send_run; cbn [heap]; apply lookup_insert_eq].
  cbn [vars heap trace SenderB.FirstName SenderB.MessageCount].
  erewrite SenderFacts.SenderB_Send_run by (cbn [heap]; apply lookup_insert_eq).
  cbn [vars heap trace SenderB.FirstName SenderB.MessageCount].
  rewrite !insert_insert_eq.
  rewrite (GoIntFacts.incr_below_max c) by lia.
  rewrite (GoIntFacts.incr_below_max (c + 1)) by lia.
  rewrite (GoIntFacts.incr_below_max (c + 1 + 1)) by lia.
  replace (c + 1 + 1) with (c + 2) by lia.
  replace (c + 2 + 1) with (c + 3) by lia.
  rewrite <- !app_assoc. reflexivity.
Qed.

(** X19: [main] of go_4_structs_interfaces.go, from any values of the two
    package variables (the count of [senderB] at least four below the
    largest [int]): it runs to the end; [senderA] is as it was, although
    [Send] was called on it four times, once through the interface; the
    count of [senderB] has gone up by four, the call through the interface
    included; and the eight lines printed show the same count for
    [senderA] every time and consecutive counts for [senderB]. *)
Theorem main_counts_only_through_the_pointer
    (m : machine SenderA.t SenderB.t) (a : SenderA.t) (b : SenderB.t) :
  vars m !! "senderA" = Some a ->
  heap m !! senderB_loc = Some b ->
  GoInt.MinInt <= SenderB.MessageCount b ->
  SenderB.MessageCount b + 4 <= GoInt.MaxInt ->
  Structs.main m =
  Done tt (Machine (vars m)
    (<[senderB_loc := SenderB.Build (SenderB.FirstName b) (SenderB.MessageCount b + 4)]>
       (heap m))
    (trace m ++
     map Stdout
       [Send_line (GoInt.incr (SenderA.MessageCount a)) (SenderA.FirstName a) "message one";
        Send_line (GoInt.incr (SenderA.MessageCount a)) (SenderA.FirstName a) "message two";
        Send_line (GoInt.incr (SenderA.MessageCount a)) (SenderA.FirstName a) "message three";
        Send_line (SenderB.MessageCount b + 1) (SenderB.FirstName b) "message one";
        Send_line (SenderB.MessageCount b + 2) (SenderB.FirstName b) "message two";
        Send_line (SenderB.MessageCount b + 3) (SenderB.FirstName b) "message three";
        Send_line (GoInt.incr (SenderA.MessageCount a)) (SenderA.FirstName a) "message four";
        Send_line (SenderB.MessageCount b + 4) (SenderB.FirstName b) "message four"])).
Proof.
  intros Ha Hb Hlo Hhi. destruct b as [name c].
  cbn [SenderB.FirstName SenderB.MessageCount] in *.
  unfold Structs.main.
  rewrite (bind_Done _ _ _ _ _ (runSenders_run m a name c Ha Hb Hlo ltac:(lia))).
  unfold Structs.runSendersInterface, Structs.SendEmail, Send,
    Structs.SenderA_is_sender, Structs.SenderB_is_sender.
  cbv beta.
  erewrite bind_Done; [|apply getvar_Some; cbn [vars]; exact Ha].
  rewrite (bind_Done _ _ _ _ _ (SenderFacts.Structs_SenderA_Send_run _ _ _)).
  erewrite SenderFacts.SenderB_Send_run by (cbn [heap]; apply lookup_insert_eq).
  cbn [vars heap trace SenderB.FirstName SenderB.MessageCount].
  rewrite insert_insert_eq, GoIntFacts.incr_below_max by lia.
  replace (c + 3 + 1) with (c + 4) by lia.
  rewrite <- !app_assoc. reflexivity.
Qed.

Lemma main_counts_only_through_the_pointer_script :
  Structs.main globals =
  Done tt (Machine (vars globals)
    (<[senderB_loc := SenderB.Build "B" 4]> (heap globals))
    (map Stdout
       [Send_line 1 "A" "message one"; Send_line 1 "A" "message two";
        Send_line 1 "A" "message three";
        Send_line 1 "B" "message one"; Send_line 2 "B" "message two";
        Send_line 3 "B" "message three";
        Send_line 1 "A" "message four"; Send_line 4 "B" "message four"])).
Proof.
  apply (main_counts_only_through_the_pointer globals
           (SenderA.Build "A" 0) (SenderB.Build "B" 0)).
  - reflexivity.
  - reflexivity.
  - vm_compute. discriminate.
  - vm_compute. discriminate.
Defined.

End StructsMainFacts.

(** ** Renaming twice, with either receiver *)

Module FuncsMainFacts.
Import Runtime RuntimeFacts.

(** X21: with either receiver the last name given wins: renaming a
    person twice through a pointer leaves the same state as the second
    renaming alone, and renaming a copy of a copy gives the same user as
    renaming once; through a nil pointer [updateMyName] panics and changes
    nothing. *)
Theorem last_name_given_wins
    (m : machine user.t person.t) (l : loc) (p : person.t) (u : user.t) (n1 n2 : string) :
  Funcs.updateNameAndCopy (Funcs.updateNameAndCopy u n1) n2 = Funcs.updateNameAndCopy u n2 /\
  Funcs.updateMyName nil n1 m = Panic m /\
  (heap m !! l = Some p ->
   bind (Funcs.updateMyName (addr l) n1) (fun _ => Funcs.updateMyName (addr l) n2) m
   = Funcs.updateMyName (addr l) n2 m).
Proof.
  split; [reflexivity|]. split; [reflexivity|].
  intros Hl. unfold Funcs.updateMyName.
  erewrite (bind_Done (bind _ _)); last first.
  { rewrite (bind_Done _ _ _ _ _ (load_addr _ _ _ Hl)). apply (store_addr _ _ _ _ Hl). }
  erewrite bind_Done; [|apply load_addr; cbn [heap]; apply lookup_insert_eq].
  erewrite store_addr by (cbn [heap]; apply lookup_insert_eq).
  rewrite (bind_Done _ _ _ _ _ (load_addr _ _ _ Hl)).
  rewrite (store_addr _ _ _ _ Hl).
  cbn [vars heap trace]. rewrite insert_insert_eq. reflexivity.
Qed.

Lemma last_name_given_wins_jordan :
  bind (Funcs.updateMyName (addr 1%positive) "jo")
       (fun _ => Funcs.updateMyName (addr 1%positive) "jordan")
       (Machine ∅ {[ 1%positive := person.Build "" ]} [])
  = Funcs.updateMyName (addr 1%positive) "jordan"
       (Machine ∅ {[ 1%positive := person.Build "" ]} []).
Proof.
  apply (proj2 (proj2 (last_name_given_wins
           (Machine ∅ {[ 1%positive := person.Build "" ]} []) 1%positive
           (person.Build "") (user.Build "") "jo" "jordan"))).
  reflexivity.
Defined.

End FuncsMainFacts.
